(** * era-system-widget: the ClickUp [system] harvester and the status endpoint

    A shallow embedding of [server/services/clickup-system.js] (the harvester:
    content normalizer, block parser, aggregator and retry wrapper), of two
    earlier revisions of the same service that the repository carries
    (modules [SolvedRevision] and [DisplayRevision]), and of the
    [/api/status] route of [server/index.js].

    JavaScript strings are sequences of UTF-16 code units; they are modelled
    as [list N].  All regular expressions of the source are used without the
    [u] flag, so they work on code units too.  The definitions come first,
    the properties after them. *)

From stdpp Require Import gmap.
From Stdlib Require Import ZArith NArith List String Ascii Bool Lia Sorted Permutation.
Import ListNotations.

Local Open Scope N_scope.
Local Open Scope list_scope.

(** ** JavaScript strings *)

Abbreviation jsstring := (list N).

(** An ASCII literal as a JavaScript string. *)
Definition str (s : string) : jsstring :=
  List.map N_of_ascii (list_ascii_of_string s).

Definition LF : N := 10.
Definition CR : N := 13.

(** [lines.join("\n")], used to write page bodies in examples. *)
Fixpoint unlines (ls : list string) : jsstring :=
  match ls with
  | [] => []
  | [l] => str l
  | l :: ls' => str l ++ LF :: unlines ls'
  end.

Definition jseqb (a b : jsstring) : bool := bool_decide (a = b).

(** Truthiness of a string: non-empty. *)
Definition truthy (s : jsstring) : bool :=
  match s with [] => false | _ => true end.

(** [a || b] on strings. *)
Definition orElse (a b : jsstring) : jsstring := if truthy a then a else b.

(** [o || ""] for a possibly undefined property. *)
Definition orEmpty (o : option jsstring) : jsstring :=
  match o with Some s => s | None => [] end.

(** WhiteSpace and LineTerminator of ECMAScript: what [String.prototype.trim]
    strips and what [\s] matches. *)
Definition isWhiteSpace (c : N) : bool :=
  (c =? 9) || (c =? 10) || (c =? 11) || (c =? 12) || (c =? 13) || (c =? 32)
  || (c =? 160) || (c =? 5760) || ((8192 <=? c) && (c <=? 8202))
  || (c =? 8232) || (c =? 8233) || (c =? 8239) || (c =? 8287)
  || (c =? 12288) || (c =? 65279).

(** Line terminators: the code units [.] does not match. *)
Definition isLineTerminator (c : N) : bool :=
  (c =? 10) || (c =? 13) || (c =? 8232) || (c =? 8233).

Fixpoint dropWhile (p : N -> bool) (s : jsstring) : jsstring :=
  match s with
  | [] => []
  | c :: t => if p c then dropWhile p t else s
  end.

Fixpoint takeWhile (p : N -> bool) (s : jsstring) : jsstring :=
  match s with
  | [] => []
  | c :: t => if p c then c :: takeWhile p t else []
  end.

Definition dropWhileEnd (p : N -> bool) (s : jsstring) : jsstring :=
  rev (dropWhile p (rev s)).

(** [s.trim()] *)
Definition trim (s : jsstring) : jsstring :=
  dropWhileEnd isWhiteSpace (dropWhile isWhiteSpace s).

(** [s.toLowerCase()], on the ASCII range: code units outside [A-Z] are left
    as they are, so the model is exact on strings whose other code units have
    no lower-case mapping.  Nothing depends on more in the block parser: the
    keys matched by the line pattern are ASCII, and the words the normalizers
    compare with contain no letter that a non-ASCII code unit lower-cases
    to, except the [k] of ["ok"], which is the default of [normalizeStatus]
    anyway.  Audience tokens are host names, ASCII in practice; a statement
    that describes the lower-cased tokens themselves is made for values of
    ASCII code units. *)
Definition lowerUnit (c : N) : N :=
  if (65 <=? c) && (c <=? 90) then c + 32 else c.

Definition toLowerCase (s : jsstring) : jsstring := List.map lowerUnit s.

(** [s.startsWith(p)] *)
Fixpoint startsWith (p s : jsstring) : bool :=
  match p, s with
  | [], _ => true
  | _ :: _, [] => false
  | a :: p', b :: s' => (a =? b) && startsWith p' s'
  end.

(** [s.endsWith("\n")] *)
Definition endsWithLF (s : jsstring) : bool :=
  match rev s with
  | c :: _ => c =? LF
  | [] => false
  end.

(** The prefix test of a case-insensitive pattern ([i] flag, no [u] flag:
    an ASCII letter of the pattern matches its two cases only). *)
Fixpoint startsWithCI (p s : jsstring) : bool :=
  match p, s with
  | [], _ => true
  | _ :: _, [] => false
  | a :: p', b :: s' => (lowerUnit a =? lowerUnit b) && startsWithCI p' s'
  end.

(** [s.replace(/[,;]+$/, "")]: the trailing run of commas and semicolons. *)
Definition isCommaSemi (c : N) : bool := (c =? 44) || (c =? 59).

Definition stripTrailingPunct (s : jsstring) : jsstring :=
  dropWhileEnd isCommaSemi s.

(** ** Global replacement

    [s.replace(re, f)] with the [g] flag scans [s] from the left; where [re]
    matches at the current position the replacement is emitted and the scan
    goes on after the match, otherwise the code unit is copied.  A matcher
    gives, for the text at the current position, the length of the match
    and its replacement.  The fuel is the number of code units left, which
    bounds the number of steps since every match is at least one unit long. *)
Definition matcher := jsstring -> option (nat * jsstring).

Fixpoint replaceFrom (m : matcher) (fuel : nat) (s : jsstring) : jsstring :=
  match fuel with
  | O => s
  | S f =>
      match s with
      | [] => []
      | c :: t =>
          match m s with
          | Some (n, rep) => rep ++ replaceFrom m f (skipn (Nat.pred n) t)
          | None => c :: replaceFrom m f t
          end
      end
  end.

Definition replaceAll (m : matcher) (s : jsstring) : jsstring :=
  replaceFrom m (List.length s) s.

(** [/&(amp|lt|gt|quot|#39);/g] with the entity table of the source. *)
Definition entityMap : list (jsstring * jsstring) :=
  [ (str "&amp;", str "&"); (str "&lt;", str "<"); (str "&gt;", str ">");
    (str "&quot;", [34]); (str "&#39;", str "'") ].

Fixpoint firstEntity (tbl : list (jsstring * jsstring)) (s : jsstring)
  : option (nat * jsstring) :=
  match tbl with
  | [] => None
  | (e, r) :: tbl' =>
      if startsWith e s then Some (List.length e, r) else firstEntity tbl' s
  end.

Definition entityAt : matcher := firstEntity entityMap.

(** [/\\\[/g] and [/\\\]/g]: a backslash followed by the bracket. *)
Definition escapedAt (bracket : N) : matcher := fun s =>
  if startsWith [92; bracket] s then Some (2%nat, [bracket]) else None.

(** [/[\u200B-\u200D\uFEFF]/g], replaced by the empty string. *)
Definition isZeroWidth (c : N) : bool :=
  ((8203 <=? c) && (c <=? 8205)) || (c =? 65279).

Definition zeroWidthAt : matcher := fun s =>
  match s with
  | c :: _ => if isZeroWidth c then Some (1%nat, []) else None
  | [] => None
  end.

(** [prepareSystemSource] of clickup-system.js *)
Definition prepareSystemSource (v : jsstring) : jsstring :=
  let s := v in
  let s := replaceAll entityAt s in
  let s := replaceAll (escapedAt 93) (replaceAll (escapedAt 91) s) in
  let s := replaceAll zeroWidthAt s in
  s.


(** ** Normalizers of clickup-system.js

    Each takes a property of the parsed object, which may be undefined
    ([None]); [(s || "")] makes that the empty string. *)

Definition normWord (s : option jsstring) : jsstring :=
  stripTrailingPunct (toLowerCase (trim (orEmpty s))).

Definition oneOf (ws : list string) (v : jsstring) : bool :=
  existsb (fun w => jseqb v (str w)) ws.

Definition normalizeStatus (s : option jsstring) : jsstring :=
  let v := normWord s in
  if jseqb v (str "warn") then str "warning"
  else if jseqb v (str "incident") then str "error"
  else if jseqb v (str "degraded") then str "warning"
  else if oneOf ["ok"; "warning"; "error"]%string v then v
  else str "ok".

Definition normalizeSolved (s : option jsstring) : jsstring :=
  let v := normWord s in
  if oneOf ["yes"; "true"; "1"]%string v then str "yes"
  else if oneOf ["no"; "false"; "0"]%string v then str "no"
  else str "no".

Definition normalizeDisplay (s : option jsstring) : jsstring :=
  let v := normWord s in
  if oneOf ["yes"; "true"; "1"; "on"]%string v then str "yes"
  else if oneOf ["no"; "false"; "0"; "off"]%string v then str "no"
  else [].

(** [raw.split(",")] *)
Fixpoint splitOn (sep : N) (s : jsstring) : list jsstring :=
  match s with
  | [] => [[]]
  | c :: t =>
      if c =? sep then [] :: splitOn sep t
      else match splitOn sep t with
           | l :: ls => (c :: l) :: ls
           | [] => [[c]]
           end
  end.

(** [Array.from(new Set(parts))]: the elements in order of first insertion. *)
Fixpoint uniqueFrom (seen : gset jsstring) (l : list jsstring) : list jsstring :=
  match l with
  | [] => []
  | x :: t =>
      if bool_decide (x ∈ seen) then uniqueFrom seen t
      else x :: uniqueFrom ({[x]} ∪ seen) t
  end.

Definition stripWww (x : jsstring) : jsstring :=
  if startsWith (str "www.") x then skipn 4 x else x.

(** [parseDomains] of clickup-system.js; the empty list means global. *)
Definition parseDomains (v : option jsstring) : list jsstring :=
  match v with
  | None => []
  | Some v =>
      let raw := trim v in
      if negb (truthy raw) || jseqb raw (str "@") then []
      else
        let parts :=
          List.map stripWww
            (List.filter truthy
               (List.map (fun x => toLowerCase (trim x)) (splitOn 44 raw))) in
        if existsb (jseqb (str "@")) parts then []
        else uniqueFrom ∅ parts
  end.

(** ** The [system] block parser of clickup-system.js *)

(** The text before the first case-insensitive occurrence of [pat] in [s],
    and the text after it. *)
Fixpoint splitAtCI (pat s : jsstring) {struct s} : option (jsstring * jsstring) :=
  if startsWithCI pat s then Some ([], skipn (List.length pat) s)
  else match s with
       | [] => None
       | c :: t =>
           match splitAtCI pat t with
           | Some (before, after) => Some (c :: before, after)
           | None => None
           end
       end.

(** The successive results [m[1]] of
    [re.exec(plain)] for [/\[system\]([\s\S]*?)\[\/system\]/gi]: the leftmost
    opening tag, then the lazy group up to the first closing tag after it;
    the next search starts after that closing tag.  No closing tag after an
    opening tag means no match there nor further right.  Every match takes
    at least the two tags, so [length plain] iterations are enough. *)
Fixpoint execAll (fuel : nat) (plain : jsstring) : list jsstring :=
  match fuel with
  | O => []
  | S f =>
      match splitAtCI (str "[system]") plain with
      | None => []
      | Some (_, r) =>
          match splitAtCI (str "[/system]") r with
          | None => []
          | Some (inner, r') => inner :: execAll f r'
          end
      end
  end.

Definition systemMatches (plain : jsstring) : list jsstring :=
  execAll (List.length plain) plain.

(** [innerRaw.split(/\r?\n/)]: split at every line feed; a carriage return
    right before the line feed belongs to the separator. *)
Definition dropCR (l : jsstring) : jsstring :=
  match rev l with
  | c :: r => if c =? CR then rev r else l
  | [] => l
  end.

Definition splitLines (s : jsstring) : list jsstring :=
  let ps := splitOn LF s in
  List.map dropCR (removelast ps) ++ [last ps []].

(** The line pattern [^([A-Za-z0-9_.-]+)\s*[:=]\s*(.* )$] (written here with a
    blank before the last parenthesis) on a trimmed line: the key and the
    value.  Every group is greedy and no two neighbours overlap, so the match
    is determined: the longest key, white space, the separator, white space,
    and a rest without line terminator up to the end of the line. *)
Definition isKeyChar (c : N) : bool :=
  ((65 <=? c) && (c <=? 90)) || ((97 <=? c) && (c <=? 122))
  || ((48 <=? c) && (c <=? 57)) || (c =? 95) || (c =? 46) || (c =? 45).

Definition isSeparator (c : N) : bool := (c =? 58) || (c =? 61).

Definition matchKV (l : jsstring) : option (jsstring * jsstring) :=
  match takeWhile isKeyChar l with
  | [] => None
  | key =>
      match dropWhile isWhiteSpace (dropWhile isKeyChar l) with
      | c :: r =>
          if isSeparator c then
            let v := dropWhile isWhiteSpace r in
            if forallb (fun x => negb (isLineTerminator x)) v
            then Some (key, v) else None
          else None
      | [] => None
      end
  end.

Definition MESSAGE : jsstring := str "message".

Definition isMessage (currentKey : option jsstring) : bool :=
  match currentKey with
  | Some k => jseqb k MESSAGE
  | None => false
  end.

(** The state of the line loop: [obj] and [currentKey].  [obj] is a plain
    object used as a dictionary; the parser reads the properties [name],
    [status], [display], [solved], [domain] and [message] only, none of
    which exists on [Object.prototype].  (An assignment to [__proto__] is
    ignored by JavaScript and kept by the map, where nothing reads it.) *)
Definition parseLine (st : gmap jsstring jsstring * option jsstring)
    (rawLine : jsstring) : gmap jsstring jsstring * option jsstring :=
  let '(obj, currentKey) := st in
  let lineTrimmed := trim rawLine in
  if negb (truthy lineTrimmed) then
    if isMessage currentKey
    then (<[MESSAGE := orEmpty (obj !! MESSAGE) ++ [LF]]> obj, currentKey)
    else st
  else
    match matchKV lineTrimmed with
    | Some (k, v) =>
        let key := toLowerCase k in
        let val := trim (stripTrailingPunct (trim v)) in
        if jseqb key MESSAGE then
          let message := orEmpty (obj !! MESSAGE) in
          (<[MESSAGE := if truthy val then message ++ val else message]> obj,
           Some MESSAGE)
        else (<[key := val]> obj, Some key)
    | None =>
        if isMessage currentKey then
          let message := orEmpty (obj !! MESSAGE) in
          let message :=
            if truthy message && negb (endsWithLF message)
            then message ++ [LF] else message in
          (<[MESSAGE := message ++ rawLine]> obj, currentKey)
        else st
    end.

Definition parseBlock (innerRaw : jsstring) : gmap jsstring jsstring :=
  fst (fold_left parseLine (splitLines innerRaw) (∅, None)).

Record Entry := mkEntry {
  name : jsstring;
  status : jsstring;
  display : jsstring;
  domains : list jsstring;
  message : jsstring
}.

(** The visibility test after the line loop: [true] when the block goes on to
    [results.push], [false] when the loop [continue]s. *)
Definition isVisible (obj : gmap jsstring jsstring) : bool :=
  let displayNorm := normalizeDisplay (obj !! str "display") in
  if truthy displayNorm then jseqb displayNorm (str "yes")
  else jseqb (normalizeSolved (obj !! str "solved")) (str "no").

Definition entryOf (obj : gmap jsstring jsstring) : Entry :=
  {| name := orElse (orEmpty (obj !! str "name")) (str "System message");
     status := normalizeStatus (obj !! str "status");
     display := orElse (normalizeDisplay (obj !! str "display")) (str "yes");
     domains := parseDomains (obj !! str "domain");
     message := orEmpty (obj !! MESSAGE) |}.

(** One turn of the [while] loop: what the match adds to [results]. *)
Definition blockEntries (innerRaw : jsstring) : list Entry :=
  if negb (truthy (trim innerRaw)) then []
  else
    let obj := parseBlock innerRaw in
    if isVisible obj then [entryOf obj] else [].

Definition extractAllSystemEntries (body : jsstring) : list Entry :=
  let plain := prepareSystemSource body in
  flat_map blockEntries (systemMatches plain).

(** ** The aggregator: [harvestSystemMessagesFromDocs]

    The remote store as one run observes it: [doc_pages] is what
    [listPagesMeta] returns for the document (the empty list when the listing
    fails) and [page_body] what [fetchPageBody] returns for the page (the
    empty string when no format gives text).  [mapLimit] keeps the results at
    the index of their page, so the bodies are visited in page order.
    [date_updated] is the epoch-millisecond number of the API, [None] when
    the field is missing; it is taken within the range of [Date], where
    [new Date(t).toISOString()] is defined and [Date.parse] gives [t] back,
    so that the ISO string of the source is represented by [t] itself. *)
Record Page := mkPage {
  page_id : jsstring;
  page_name : jsstring;
  date_updated : option Z;
  page_body : jsstring
}.

Record Doc := mkDoc {
  doc_id : jsstring;
  doc_name : jsstring;
  doc_pages : list Page
}.

(** [{...f, doc_id, doc_name, page_id, page_name, updated}] *)
Record Message := mkMessage {
  entry : Entry;
  m_doc_id : jsstring;
  m_doc_name : jsstring;
  m_page_id : jsstring;
  m_page_name : jsstring;
  updated : option Z
}.

Record Snapshot := mkSnapshot {
  overall : jsstring;
  messages : list Message;
  updatedAt : jsstring
}.

(** [(Number(p?.date_updated) || 0)] *)
Definition numberOrZero (t : option Z) : Z :=
  match t with Some z => z | None => 0%Z end.

(** [cutoffMs ? pages.filter(...) : pages] *)
Definition recentPages (cutoffMs : Z) (pages : list Page) : list Page :=
  if (cutoffMs =? 0)%Z then pages
  else List.filter (fun p => (cutoffMs <=? numberOrZero (date_updated p))%Z) pages.

(** [date_updated ? new Date(Number(date_updated)).toISOString() : null] *)
Definition updatedOf (p : Page) : option Z :=
  match date_updated p with
  | Some t => if (t =? 0)%Z then None else Some t
  | None => None
  end.

Definition pageMessages (d : Doc) (p : Page) : list Message :=
  if negb (truthy (page_body p)) then []
  else
    List.map
      (fun f => {| entry := f;
                   m_doc_id := doc_id d; m_doc_name := doc_name d;
                   m_page_id := page_id p; m_page_name := page_name p;
                   updated := updatedOf p |})
      (extractAllSystemEntries (page_body p)).

(** The two nested [for] loops that fill [messages]. *)
Definition collectMessages (cutoffMs : Z) (docs : list Doc) : list Message :=
  flat_map
    (fun d => flat_map (pageMessages d) (recentPages cutoffMs (doc_pages d)))
    docs.

(** [sev[m.status] ?? 9] *)
Definition sev (s : jsstring) : Z :=
  if jseqb s (str "error") then 0
  else if jseqb s (str "warning") then 1
  else if jseqb s (str "ok") then 2
  else 9.

(** [Date.parse(m.updated || "") || 0] *)
Definition parsedTime (m : Message) : Z :=
  match updated m with Some t => t | None => 0%Z end.

(** The comparator given to [messages.sort]. *)
Definition compareMessages (a b : Message) : Z :=
  let sa := sev (status (entry a)) in
  let sb := sev (status (entry b)) in
  if negb (sa =? sb)%Z then (sa - sb)%Z
  else (parsedTime b - parsedTime a)%Z.

(** [Array.prototype.sort] is stable, and with a comparator that is a total
    preorder its result is the one stable sorted arrangement of the array,
    whatever algorithm the engine runs.  Insertion from the right computes
    that arrangement: an element goes in front of the first element of the
    sorted rest that it does not come after. *)
Section Sort.
Context {A : Type}.
Variable cmp : A -> A -> Z.

Fixpoint insertSorted (x : A) (l : list A) : list A :=
  match l with
  | [] => [x]
  | y :: t => if (cmp x y <=? 0)%Z then x :: l else y :: insertSorted x t
  end.

Definition sortBy (l : list A) : list A := fold_right insertSorted [] l.
End Sort.

Definition hasStatus (w : string) (ms : list Message) : bool :=
  existsb (fun m => jseqb (status (entry m)) (str w)) ms.

Definition overallOf (ms : list Message) : jsstring :=
  if hasStatus "error" ms then str "error"
  else if hasStatus "warning" ms then str "warn"
  else str "ok".

(** [harvestSystemMessagesFromDocs], given the configured cutoff, the
    documents that [listAllDocs] returned and the time of the run. *)
Definition harvestSystemMessagesFromDocs
    (cutoffMs : Z) (docs : list Doc) (now : jsstring) : Snapshot :=
  let messages := sortBy compareMessages (collectMessages cutoffMs docs) in
  {| overall := overallOf messages; messages := messages; updatedAt := now |}.

(** ** The resilient fetch wrapper: [withBackoff]

    [fn] is an asynchronous action on the outside world [W]: it returns a
    value or throws, and leaves the world changed.  The error carries
    [err?.status], [None] when it is undefined. *)
Record JsError := mkError {
  err_status : option Z;
  err_message : jsstring
}.

Inductive Outcome (A : Type) : Type :=
| Return (a : A)
| Throw (e : JsError).
Arguments Return {A} a.
Arguments Throw {A} e.

(** [s === 429 || (s >= 500 && s < 600)] *)
Definition retriable (e : JsError) : bool :=
  match err_status e with
  | Some s => ((s =? 429) || ((500 <=? s) && (s <? 600)))%Z
  | None => false
  end.

Section WithBackoff.
Context {W A : Type}.
(** [await new Promise(r => setTimeout(r, delay))] *)
Variable sleep : Z -> W -> W.
Variable fn : W -> Outcome A * W.
Variable tries : nat.

(** The [for] loop from index [i] on; [left] is [tries - i], the number of
    turns the loop still has. *)
Fixpoint backoffLoop (left i : nat) (delay : Z) (w : W) : Outcome A * W :=
  match left with
  | O => (Throw {| err_status := None; err_message := str "unreachable" |}, w)
  | S left' =>
      match fn w with
      | (Return v, w') => (Return v, w')
      | (Throw err, w') =>
          if retriable err && (i <? tries - 1)%nat
          then backoffLoop left' (S i) (Z.min (delay * 2) 8000) (sleep delay w')
          else (Throw err, w')
      end
  end.

Definition withBackoff (baseDelay : Z) (w : W) : Outcome A * W :=
  backoffLoop tries 0 baseDelay w.
End WithBackoff.

(** A world that records what [withBackoff] does to it: the number of calls
    of [fn] so far and the delays slept.  The [k]-th call of the scripted
    action has the outcome [outs k]. *)
Record Net := mkNet {
  calls : nat;
  sleeps : list Z
}.

Definition sleepNet (delay : Z) (w : Net) : Net :=
  {| calls := calls w; sleeps := sleeps w ++ [delay] |}.

Definition scripted {A : Type} (outs : nat -> Outcome A) (w : Net) : Outcome A * Net :=
  (outs (calls w), {| calls := S (calls w); sleeps := sleeps w |}).

Definition net0 : Net := {| calls := 0; sleeps := [] |}.

(** ** The status endpoint of index.js: [app.get("/api/status")]

    The file system maps a path to a file; [readFileSync] throws when the
    path has no file or the file cannot be read. *)
Inductive FileState :=
| Readable (content : jsstring)
| Unreadable.

Definition readFileSync (fs : gmap jsstring FileState) (path : jsstring)
  : Outcome jsstring :=
  match fs !! path with
  | Some (Readable raw) => Return raw
  | Some Unreadable => Throw {| err_status := None; err_message := str "EACCES" |}
  | None => Throw {| err_status := None; err_message := str "ENOENT" |}
  end.

(** What the handler sends: [res.type("json").send(raw)] or
    [res.json({overall, updatedAt, messages})]. *)
Inductive Response :=
| SendRaw (contentType : jsstring) (body : jsstring)
| SendJson (body : Snapshot).

Definition apiStatus (fs : gmap jsstring FileState) (dataPath now : jsstring)
  : Response :=
  match readFileSync fs dataPath with
  | Return raw => SendRaw (str "json") raw
  | Throw _ => SendJson {| overall := str "ok"; updatedAt := now; messages := [] |}
  end.

(** ** The revision with the legacy [solved] flag (src/unnamed/part_001)

    An earlier revision of the same service: blocks are kept when [solved]
    normalizes to ["no"], and the entries of one page body are de-duplicated
    by name, status and message. *)
Module SolvedRevision.

(** [prepareSystemSource]: entities and escaped brackets only. *)
Definition prepareSystemSource (v : jsstring) : jsstring :=
  let s := replaceAll entityAt v in
  replaceAll (escapedAt 93) (replaceAll (escapedAt 91) s).

(** [normalizeStatus] and [normalizeSolved] have the bodies of the current
    revision; their parameter defaults to the empty string. *)
Definition normalizeStatus := normalizeStatus.
Definition normalizeSolved := normalizeSolved.

(** [/^\[.*\]$/.test(l)]: an opening bracket, no line terminator, a closing
    bracket. *)
Definition isBracketed (l : jsstring) : bool :=
  match l with
  | c :: r =>
      (c =? 91)
      && match rev r with
         | d :: mid => (d =? 93) && forallb (fun x => negb (isLineTerminator x)) mid
         | [] => false
         end
  | [] => false
  end.

(** [l.slice(1, -1)] *)
Definition sliceInner (l : jsstring) : jsstring := removelast (tl l).

(** The line pattern of this revision ends in a group of one or more
    units: on the trimmed lines it is applied to, it is the pattern of the
    current revision with a value that is not empty. *)
Definition matchKV (l : jsstring) : option (jsstring * jsstring) :=
  match matchKV l with
  | Some (k, v) => if truthy v then Some (k, v) else None
  | None => None
  end.

Definition parseLine (st : gmap jsstring jsstring * option jsstring)
    (rawLine : jsstring) : gmap jsstring jsstring * option jsstring :=
  let '(obj, currentKey) := st in
  let line := trim rawLine in
  if negb (truthy line) then
    if isMessage currentKey
    then (<[MESSAGE := orEmpty (obj !! MESSAGE) ++ [LF]]> obj, currentKey)
    else st
  else
    let l := if isBracketed line then trim (sliceInner line) else line in
    match matchKV l with
    | Some (k, v) =>
        let key := toLowerCase k in
        let val := trim v in
        (<[key := val]> obj, Some key)
    | None =>
        if isMessage currentKey then
          let message := orEmpty (obj !! MESSAGE) in
          let message :=
            if truthy message && negb (endsWithLF message)
            then message ++ [LF] else message in
          (<[MESSAGE := message ++ rawLine]> obj, currentKey)
        else st
    end.

Record Entry := mkEntry {
  name : jsstring;
  status : jsstring;
  solved : jsstring;
  message : jsstring
}.

Definition blockEntries (m1 : jsstring) : list Entry :=
  let inner := trim m1 in
  if negb (truthy inner) then []
  else
    let obj := fst (fold_left parseLine (splitLines inner) (∅, None)) in
    if negb (jseqb (normalizeSolved (obj !! str "solved")) (str "no")) then []
    else
      [ {| name := orElse (orEmpty (obj !! str "name")) (str "System message");
           status := normalizeStatus (obj !! str "status");
           solved := str "no";
           message := orEmpty (obj !! MESSAGE) |} ].

(** The template string [`${r.name}||${r.status}||${r.message}`]. *)
Definition keyOf (r : Entry) : jsstring :=
  name r ++ str "||" ++ status r ++ str "||" ++ message r.

(** The de-duplication loop: [seen] is the [Set] of keys, the result is
    what the loop pushes to [dedup]. *)
Fixpoint dedupFrom (seen : gset jsstring) (results : list Entry) : list Entry :=
  match results with
  | [] => []
  | r :: rest =>
      let k := keyOf r in
      if bool_decide (k ∈ seen) then dedupFrom seen rest
      else r :: dedupFrom ({[k]} ∪ seen) rest
  end.

(** The blocks of one page body before the de-duplication loop. *)
Definition parsedEntries (body : jsstring) : list Entry :=
  flat_map blockEntries (systemMatches (prepareSystemSource body)).

Definition extractAllSystemEntries (body : jsstring) : list Entry :=
  dedupFrom ∅ (parsedEntries body).

#[local] Unset Elimination Schemes.

(** A document with what the run observes of it: its pages (the result of
    [pageListingMeta]) and its child documents (the result of
    [listChildDocs]). *)
Inductive DocTree :=
| DocNode (id docName : jsstring) (pages : list Page) (children : list DocTree).

#[local] Set Elimination Schemes.


(** [{...e, doc_id, page_id, page_name, updated}], then [doc_name]. *)
Record Found := mkFound {
  f_entry : Entry;
  f_doc_id : jsstring;
  f_page_id : jsstring;
  f_page_name : jsstring;
  f_updated : option Z;
  f_doc_name : jsstring
}.

Definition pageEntries (docId : jsstring) (p : Page) : list Found :=
  if negb (truthy (page_body p)) then []
  else
    List.map
      (fun e => {| f_entry := e; f_doc_id := docId;
                   f_page_id := page_id p; f_page_name := page_name p;
                   f_updated := updatedOf p; f_doc_name := [] |})
      (extractAllSystemEntries (page_body p)).

(** [collectSystemFromDoc(docId, depth)] *)
Fixpoint collectSystemFromDoc (MAX_DEPTH cutoffMs : Z) (d : DocTree) (depth : Z)
  : list Found :=
  match d with
  | DocNode docId _ pages children =>
      if (MAX_DEPTH <? depth)%Z then []
      else
        let recent := recentPages cutoffMs pages in
        match recent with
        | [] => []
        | _ =>
            let entries := flat_map (pageEntries docId) recent in
            if (depth <? MAX_DEPTH)%Z
            then entries ++
                 flat_map
                   (fun child =>
                      collectSystemFromDoc MAX_DEPTH cutoffMs child (depth + 1))
                   children
            else entries
        end
  end.







End SolvedRevision.


(** ** The revision with the display flag only (src/unnamed/part_000)

    Another revision of the same service: blocks are kept unless [display]
    normalizes to ["no"], audience tokens go through [normalizeHostToken],
    and the message is trimmed. *)
Module DisplayRevision.

Definition normalizeStatus (s : option jsstring) : jsstring :=
  let v := normWord s in
  if jseqb v (str "warn") then str "warning"
  else if jseqb v (str "incident") then str "error"
  else if jseqb v (str "degraded") then str "warning"
  else if jseqb v (str "success") then str "ok"
  else if oneOf ["ok"; "warning"; "error"]%string v then v
  else str "ok".

Definition normalizeDisplay (s : option jsstring) : jsstring :=
  let v := normWord s in
  if oneOf ["no"; "false"; "0"; "off"]%string v then str "no"
  else str "yes".

(** [prepareSource]: entities and escaped brackets. *)
Definition prepareSource (v : jsstring) : jsstring :=
  let s := replaceAll entityAt v in
  replaceAll (escapedAt 93) (replaceAll (escapedAt 91) s).

(** The markdown link pattern: an opening bracket, one or more units that are
    no closing bracket, [](], one or more units that are no closing
    parenthesis, and the closing parenthesis.  The link becomes its trimmed
    text, or its trimmed target when the text is blank. *)
Definition markdownLinkAt : matcher := fun s =>
  match s with
  | c :: r =>
      if c =? 91 then
        let text := takeWhile (fun x => negb (x =? 93)) r in
        match text, dropWhile (fun x => negb (x =? 93)) r with
        | _ :: _, close :: open :: r2 =>
            if (close =? 93) && (open =? 40) then
              let url := takeWhile (fun x => negb (x =? 41)) r2 in
              match url, dropWhile (fun x => negb (x =? 41)) r2 with
              | _ :: _, _ :: _ =>
                  Some (List.length text + List.length url + 4,
                        if truthy (trim text) then trim text else trim url)%nat
              | _, _ => None
              end
            else None
        | _, _ => None
        end
      else None
  | [] => None
  end.

(** [/^https?:\/\//i.test(x)] and [x.replace(/^https?:\/\//i, "")] *)
Definition hasHttpScheme (x : jsstring) : bool :=
  startsWithCI (str "https://") x || startsWithCI (str "http://") x.

Definition stripHttpScheme (x : jsstring) : jsstring :=
  if startsWithCI (str "https://") x then skipn 8 x
  else if startsWithCI (str "http://") x then skipn 7 x
  else x.

(** [x.split(sep)[0]] *)
Definition beforeFirst (sep : N) (x : jsstring) : jsstring :=
  takeWhile (fun c => negb (c =? sep)) x.

Section HostTokens.
(** [new URL(x).hostname] of the platform, [None] when the constructor
    throws. *)
Variable urlHostname : jsstring -> option jsstring.

Definition normalizeHostToken (input : jsstring) : jsstring :=
  let x := trim input in
  let x := replaceAll markdownLinkAt x in
  let x :=
    if hasHttpScheme x
    then match urlHostname x with Some h => h | None => x end
    else x in
  let x := stripHttpScheme x in
  let x := beforeFirst 35 (beforeFirst 63 (beforeFirst 47 x)) in
  let x := trim (toLowerCase x) in
  if startsWith (str "www.") x then skipn 4 x else x.

Definition parseDomains (v : option jsstring) : list jsstring :=
  match v with
  | None => []
  | Some v =>
      let raw := trim v in
      if negb (truthy raw) then []
      else if jseqb raw (str "@") then []
      else
        let parts :=
          List.filter truthy (List.map normalizeHostToken (splitOn 44 raw)) in
        if existsb (jseqb (str "@")) parts then []
        else uniqueFrom ∅ parts
  end.

Definition parseLine (st : gmap jsstring jsstring * option jsstring)
    (rawLine : jsstring) : gmap jsstring jsstring * option jsstring :=
  let '(obj, currentKey) := st in
  let lineTrim := trim rawLine in
  if negb (truthy lineTrim) then
    if isMessage currentKey
    then (<[MESSAGE := orEmpty (obj !! MESSAGE) ++ [LF]]> obj, currentKey)
    else st
  else
    let l :=
      if SolvedRevision.isBracketed lineTrim
      then trim (SolvedRevision.sliceInner lineTrim) else lineTrim in
    match matchKV l with
    | Some (k, valRaw) =>
        let key := toLowerCase k in
        if jseqb key MESSAGE then
          (<[MESSAGE := orEmpty (obj !! MESSAGE) ++ valRaw]> obj, Some MESSAGE)
        else (<[key := trim valRaw]> obj, Some key)
    | None =>
        if isMessage currentKey then
          let message := orEmpty (obj !! MESSAGE) in
          let message :=
            if truthy message && negb (endsWithLF message)
            then message ++ [LF] else message in
          (<[MESSAGE := message ++ rawLine]> obj, currentKey)
        else st
    end.

Definition blockEntries (m1 : jsstring) : list Entry :=
  let inner := trim m1 in
  if negb (truthy inner) then []
  else
    let obj := fst (fold_left parseLine (splitLines inner) (∅, None)) in
    if negb (jseqb (normalizeDisplay (obj !! str "display")) (str "yes")) then []
    else
      let name := trim (orEmpty (obj !! str "name")) in
      if negb (truthy name) then []
      else
        [ {| name := name;
             status := normalizeStatus (obj !! str "status");
             display := str "yes";
             domains := parseDomains (obj !! str "domain");
             message := trim (orEmpty (obj !! MESSAGE)) |} ].

Definition extractAllSystemEntries (body : jsstring) : list Entry :=
  flat_map blockEntries (systemMatches (prepareSource body)).
End HostTokens.

End DisplayRevision.

(** ** Notions used in the statements *)

(** The pattern of a matcher occurs somewhere in the string. *)
Fixpoint occurs (m : matcher) (s : jsstring) : bool :=
  match s with
  | [] => false
  | _ :: t => match m s with Some _ => true | None => occurs m t end
  end.

(** A matcher whose replacement is shorter than what it matched. *)
Definition shrinking (m : matcher) : Prop :=
  forall s n rep, m s = Some (n, rep) ->
    (List.length rep < n)%nat /\ (n <= List.length s)%nat.


(** The block reaches [results]. *)
Definition included (innerRaw : jsstring) : bool :=
  match blockEntries innerRaw with [] => false | _ :: _ => true end.

(** The page body of the end-to-end example of the specification. *)
Definition demoBody : jsstring :=
  unlines ["[system]"; "name: API degraded"; "status: warn"; "display: yes";
           "domain: Example.com, www.Foo.org";
           "message: Partial outages expected."; "[/system]"]%string.

(** A block whose display value is not recognized. *)
Definition maybeBlock : jsstring :=
  unlines [""; "name: X"; "display: maybe"; "solved: no"; ""]%string.

Definition maybeBody : jsstring :=
  unlines ["[system]"; "name: X"; "display: maybe"; "solved: no"; "[/system]"]%string.

(** The order of the message list in the specification: by severity rank, then
    most recently updated first, an entry without timestamp being older than
    any entry with one. *)
Definition rank (m : Message) : Z := sev (status (entry m)).

Definition notOlder (a b : Message) : Prop :=
  match updated a, updated b with
  | Some ta, Some tb => (tb <= ta)%Z
  | _, None => True
  | None, Some _ => False
  end.

Definition precedes (a b : Message) : Prop :=
  (rank a < rank b)%Z \/ (rank a = rank b /\ notOlder a b).


(** One document with two pages that carry the same block. *)
Definition downBlock : jsstring :=
  unlines ["[system]"; "name: X"; "status: error"; "message: down"; "[/system]"]%string.

Definition pageA : Page :=
  {| page_id := str "p1"; page_name := str "Mail";
     date_updated := Some 1700000000000%Z; page_body := downBlock |}.

Definition pageB : Page :=
  {| page_id := str "p2"; page_name := str "Portal";
     date_updated := Some 1700000500000%Z; page_body := downBlock |}.

Definition twoPages : list Doc :=
  [ {| doc_id := str "d1"; doc_name := str "Status"; doc_pages := [pageA; pageB] |} ].



Definition solvedTriple (r : SolvedRevision.Entry)
  : jsstring * jsstring * jsstring :=
  (SolvedRevision.name r, SolvedRevision.status r, SolvedRevision.message r).

(** Entries of three severities with timestamps against the severity order. *)
Definition severityPages : list Doc :=
  [ {| doc_id := str "d1"; doc_name := str "Status";
       doc_pages :=
         [ {| page_id := str "p1"; page_name := str "A";
              date_updated := Some 3000%Z;
              page_body := unlines ["[system]"; "name: A"; "status: ok"; "[/system]"]%string |};
           {| page_id := str "p2"; page_name := str "B";
              date_updated := None;
              page_body := unlines ["[system]"; "name: B"; "status: error"; "[/system]"]%string |};
           {| page_id := str "p3"; page_name := str "C";
              date_updated := Some 1000%Z;
              page_body := unlines ["[system]"; "name: C"; "status: warning"; "[/system]";
                                    "[system]"; "name: D"; "status: incident"; "[/system]"]%string |} ] |} ].

(** The attempt failed with an error that [withBackoff] may retry. *)
Definition isRetriableError {A : Type} (o : Outcome A) : bool :=
  match o with
  | Throw e => retriable e
  | Return _ => false
  end.

(** The delays slept before [n] retries: doubled each time, capped. *)
Fixpoint delaysFrom (delay : Z) (n : nat) : list Z :=
  match n with
  | O => []
  | S k => delay :: delaysFrom (Z.min (delay * 2) 8000) k
  end.

(** An error with the given HTTP status, as [v3Get] throws it. *)
Definition httpError (s : Z) : JsError :=
  {| err_status := Some s; err_message := str "ClickUp v3 error" |}.

(** A server that answers 503 twice, then 404. *)
Definition flakyThenMissing : nat -> Outcome jsstring := fun k =>
  match k with
  | 0%nat | 1%nat => Throw (httpError 503)
  | _ => Throw (httpError 404)
  end.

(** Where index.js reads the snapshot from. *)
Definition dataPath : jsstring := str "../data/system.json".

(** No white space at either end. *)
Definition isTrimmed (s : jsstring) : bool :=
  match s with
  | [] => true
  | c :: _ => negb (isWhiteSpace c) && negb (isWhiteSpace (last s c))
  end.

(** A code unit of a normalized host: no path, query or fragment separator
    and no upper-case ASCII letter. *)
Definition isHostUnit (c : N) : bool :=
  negb (c =? 47) && negb (c =? 63) && negb (c =? 35)
  && negb ((65 <=? c) && (c <=? 90)).

(** ** Further notions used in the statements *)

(** Two messages the comparator of the sort cannot tell apart. *)
Definition sameSortKey (m0 m : Message) : bool :=
  (rank m =? rank m0)%Z && (parsedTime m =? parsedTime m0)%Z.

(** The message that the harvester builds for an entry of a page. *)
Definition messageOf (d : Doc) (p : Page) (f : Entry) : Message :=
  {| entry := f;
     m_doc_id := doc_id d; m_doc_name := doc_name d;
     m_page_id := page_id p; m_page_name := page_name p;
     updated := updatedOf p |}.

(** A document whose page bodies could not be fetched. *)
Definition unreachablePages : list Doc :=
  [ {| doc_id := str "d1"; doc_name := str "Status";
       doc_pages :=
         [ {| page_id := str "p1"; page_name := str "Mail";
              date_updated := Some 1700000000000%Z; page_body := [] |};
           {| page_id := str "p2"; page_name := str "Portal";
              date_updated := None; page_body := [] |} ] |} ].

(** What [parseDomains] of clickup-system.js makes of one token. *)
Definition hostOf (tok : jsstring) : jsstring :=
  stripWww (toLowerCase (trim tok)).

(** One level of the escaping that the content normalizer undoes: the five
    characters of its entity table as entities, and a backslash in front of
    every square bracket. *)
Definition encodeUnit (c : N) : jsstring :=
  if c =? 38 then str "&amp;"
  else if c =? 60 then str "&lt;"
  else if c =? 62 then str "&gt;"
  else if c =? 34 then 38 :: str "quot;"
  else if c =? 39 then str "&#39;"
  else [c].

Definition encodeEntities (s : jsstring) : jsstring := flat_map encodeUnit s.

Definition escapeOnly (bracket : N) (s : jsstring) : jsstring :=
  flat_map (fun c => if c =? bracket then [92; c] else [c]) s.

Definition escapeBrackets (s : jsstring) : jsstring :=
  flat_map (fun c => if (c =? 91) || (c =? 93) then [92; c] else [c]) s.

(** ** The bounded concurrency runner: [mapLimit]

    JavaScript runs one runner at a time and switches at an [await] only, so
    the pool moves in steps: the start, where each of the
    [Math.min(limit, items.length)] runners takes an index and calls the
    worker, and then, in any order, the settling of one awaited worker call,
    after which the runner stores the result at the index it holds and takes
    the next index ([i++], also when the index is past the end, where the
    runner stops).  [worker a idx] is the outcome of the call for the item;
    a rejected call leaves [undefined] in its slot, written [None]. *)
Section MapLimit.
Context {A R : Type}.
Variable worker : A -> nat -> Outcome R.
Variable items : list A.
Variable limit : nat.

Record Pool := mkPool {
  nextIndex : nat;
  results : list (option R);
  runners : list (option nat)
}.

(** What the slot of an index holds once its call has settled. *)
Definition settled (idx : nat) : option R :=
  match items !! idx with
  | Some a => match worker a idx with Return v => Some v | Throw _ => None end
  | None => None
  end.

(** [new Array(items.length)], [i] after the runners have started, and the
    index each runner awaits. *)
Definition poolStart : Pool :=
  let n := Nat.min limit (List.length items) in
  {| nextIndex := n;
     results := replicate (List.length items) None;
     runners := Some <$> seq 0 n |}.

(** The call awaited by runner [k] settles. *)
Definition settle (k : nat) (s : Pool) : option Pool :=
  match runners s !! k with
  | Some (Some idx) =>
      Some {| nextIndex := S (nextIndex s);
              results := <[idx := settled idx]> (results s);
              runners :=
                <[k := if (nextIndex s <? List.length items)%nat
                       then Some (nextIndex s) else None]> (runners s) |}
  | _ => None
  end.

Definition poolStep (s s' : Pool) : Prop := exists k, settle k s = Some s'.

(** All runners have left their loop: [Promise.all] resolves. *)
Definition poolDone (s : Pool) : Prop := Forall (fun r => r = None) (runners s).

(** The number of worker calls in flight. *)
Definition isHolding (r : option nat) : bool :=
  match r with Some _ => true | None => false end.

Definition inFlight (s : Pool) : nat :=
  List.length (List.filter isHolding (runners s)).
End MapLimit.

(** ** Page bodies: [fetchPageBody]

    A JSON value as the flattening loop sees it: a string, an array, an
    object (given by [Object.values], in that order), or anything else
    (number, boolean, null). *)
#[local] Unset Elimination Schemes.

Inductive JsValue :=
| JString (s : jsstring)
| JArray (elements : list JsValue)
| JObject (values : list JsValue)
| JOther.

#[local] Set Elimination Schemes.

Fixpoint nodeCount (v : JsValue) : nat :=
  match v with
  | JArray cs | JObject cs => S (list_sum (List.map nodeCount cs))
  | JString _ | JOther => 1
  end.

(** The [while (stack.length)] loop.  The head of [stack] is the last
    element of the array of the source, the one [pop] takes;
    [stack.push(...cur)] leaves the last element of [cur] on top. *)
Fixpoint flattenLoop (fuel : nat) (stack : list JsValue) (out : list jsstring)
  : list jsstring :=
  match fuel with
  | O => out
  | S f =>
      match stack with
      | [] => out
      | cur :: rest =>
          match cur with
          | JString s => flattenLoop f rest (out ++ [s])
          | JArray cs => flattenLoop f (rev cs ++ rest) out
          | JObject vs => flattenLoop f (rev vs ++ rest) out
          | JOther => flattenLoop f rest out
          end
      end
  end.

(** Every turn of the loop pops one node, so the number of nodes of the
    root is fuel enough. *)
Definition flattenJson (root : JsValue) : list jsstring :=
  flattenLoop (nodeCount root) [root] [].

(** The string leaves of a value in reading order. *)
Fixpoint leaves (v : JsValue) : list jsstring :=
  match v with
  | JString s => [s]
  | JArray cs | JObject cs => flat_map leaves cs
  | JOther => []
  end.

(** [out.join("\n")] *)
Fixpoint joinLF (ls : list jsstring) : jsstring :=
  match ls with
  | [] => []
  | [l] => l
  | l :: ls' => l ++ LF :: joinLF ls'
  end.

(** The content of the answer for the JSON format: a string still to be
    parsed, or a value. *)
Inductive JsonContent :=
| Unparsed (s : jsstring)
| Parsed (v : JsValue).

(** What [withBackoff(() => v3Get(...))] gives for each of the four formats,
    in the order they are tried: a rejection, or [data?.content] ([None]
    when it is undefined or null).  The text formats carry strings. *)
Record PageResponses := mkResponses {
  asMarkdown : Outcome (option jsstring);
  asPlain : Outcome (option jsstring);
  asJson : Outcome (option JsonContent);
  asHtml : Outcome (option jsstring)
}.

Definition nonBlank (t : jsstring) : option jsstring :=
  if truthy t then Some t else None.

(** One turn of the loop for a text format: the body it returns, if any. *)
Definition textBody (o : Outcome (option jsstring)) : option jsstring :=
  match o with
  | Return (Some c) => if truthy c then nonBlank (trim c) else None
  | Return None => None
  | Throw _ => None
  end.

Section FetchPageBody.
(** [JSON.parse] of the platform, [None] when it throws. *)
Variable jsonParse : jsstring -> option JsValue.

Definition jsonBody (o : Outcome (option JsonContent)) : option jsstring :=
  match o with
  | Return (Some (Unparsed s)) =>
      if truthy s then
        match jsonParse s with
        | Some root => nonBlank (trim (joinLF (flattenJson root)))
        | None => None
        end
      else None
  | Return (Some (Parsed v)) => nonBlank (trim (joinLF (flattenJson v)))
  | Return None => None
  | Throw _ => None
  end.

Definition bodyCandidates (r : PageResponses) : list (option jsstring) :=
  [ textBody (asMarkdown r); textBody (asPlain r); jsonBody (asJson r);
    textBody (asHtml r) ].

Fixpoint firstBody (cs : list (option jsstring)) : jsstring :=
  match cs with
  | [] => []
  | Some t :: _ => t
  | None :: cs' => firstBody cs'
  end.

Definition fetchPageBody (r : PageResponses) : jsstring :=
  firstBody (bodyCandidates r).
End FetchPageBody.

(** The pool after the calls of the runners [ks] have settled in that
    order, when each of them was awaiting a call. *)
Fixpoint settleAll {A R : Type} (worker : A -> nat -> Outcome R) (items : list A)
    (ks : list nat) (s : Pool) : option Pool :=
  match ks with
  | [] => Some s
  | k :: ks' =>
      match settle worker items k s with
      | Some s' => settleAll worker items ks' s'
      | None => None
      end
  end.

(** Three pages, the second of which cannot be fetched. *)
Definition threeItems : list jsstring := [str "p1"; str "p2"; str "p3"].

Definition flakyWorker (a : jsstring) (idx : nat) : Outcome jsstring :=
  if (idx =? 1)%nat then Throw (httpError 500) else Return (str "body of " ++ a).

Definition threeDone : Pool :=
  {| nextIndex := 5;
     results := [Some (str "body of p1"); None; Some (str "body of p3")];
     runners := [None; None] |}.

(** ** The document listing: [listAllDocs]

    [request cursor] is what [withBackoff(() => v3Get(".../docs", ...))]
    gives for the cursor sent ([None] for the first request, which sends
    none): a rejection or the parsed answer, whose [docs] and [next_cursor]
    may be missing.  The loop has no bound of its own; the fuel counts
    requests, and [None] says that the loop has not ended within them. *)
Record DocMeta := mkDocMeta {
  meta_id : jsstring;
  meta_name : option jsstring
}.

Record DocsData := mkDocsData {
  data_docs : option (list DocMeta);
  data_next_cursor : option jsstring
}.

(** The cursor the loop goes on with: [next_cursor] when it is truthy. *)
Definition nextCursor (data : DocsData) : option jsstring :=
  match data_next_cursor data with
  | Some c => if truthy c then Some c else None
  | None => None
  end.

Section ListAllDocs.
Variable request : option jsstring -> Outcome DocsData.
(** [DOC_NAME_FILTER]: the test of the configured pattern, or null. *)
Variable DOC_NAME_FILTER : option (jsstring -> bool).

(** What one answer adds to [docs]. *)
Definition keptDocs (data : DocsData) : list DocMeta :=
  let batch := match data_docs data with Some b => b | None => [] end in
  match DOC_NAME_FILTER with
  | Some test =>
      List.filter
        (fun d => match meta_name d with
                  | Some n => truthy n && test n
                  | None => false
                  end)
        batch
  | None => batch
  end.

Fixpoint listAllDocsFrom (fuel : nat) (next_cursor : option jsstring)
    (docs : list DocMeta) : option (Outcome (list DocMeta)) :=
  match fuel with
  | O => None
  | S f =>
      match request next_cursor with
      | Throw e => Some (Throw e)
      | Return data =>
          let docs := docs ++ keptDocs data in
          match nextCursor data with
          | Some c => listAllDocsFrom f (Some c) docs
          | None => Some (Return docs)
          end
      end
  end.

Definition listAllDocs (fuel : nat) : option (Outcome (list DocMeta)) :=
  listAllDocsFrom fuel None [].

(** The answers the server gives along the chain of cursors that starts at
    a cursor, up to the answer without a further cursor or to the request
    that is rejected. *)
Inductive Listing : option jsstring -> list DocsData -> option JsError -> Prop :=
| listing_rejected c e :
    request c = Throw e -> Listing c [] (Some e)
| listing_last c data :
    request c = Return data -> nextCursor data = None -> Listing c [data] None
| listing_more c data c' rest r :
    request c = Return data -> nextCursor data = Some c' ->
    Listing (Some c') rest r -> Listing c (data :: rest) r.
End ListAllDocs.

(** A server with two pages of documents, and one whose second page is
    refused. *)
Definition statusDoc : DocMeta := {| meta_id := str "d1"; meta_name := Some (str "System status") |}.
Definition notesDoc : DocMeta := {| meta_id := str "d2"; meta_name := Some (str "Meeting notes") |}.
Definition incidentsDoc : DocMeta := {| meta_id := str "d3"; meta_name := Some (str "Incidents") |}.

Definition firstAnswer : DocsData :=
  {| data_docs := Some [statusDoc; notesDoc]; data_next_cursor := Some (str "c1") |}.
Definition secondAnswer : DocsData :=
  {| data_docs := Some [incidentsDoc]; data_next_cursor := None |}.

Definition twoPageServer (cursor : option jsstring) : Outcome DocsData :=
  match cursor with
  | None => Return firstAnswer
  | Some _ => Return secondAnswer
  end.

(** A name test that keeps the names with a capital S or I in front. *)
Definition startsWithSorI (n : jsstring) : bool :=
  match n with
  | c :: _ => (c =? 83) || (c =? 73)
  | [] => false
  end.

(** A server that always names a further cursor. *)
Definition endlessServer (cursor : option jsstring) : Outcome DocsData :=
  Return {| data_docs := Some [statusDoc]; data_next_cursor := Some (str "again") |}.

(** ** More of the revision with the legacy flag (src/unnamed/part_001) *)

(** The pattern [[^\w.-]+] of [sanitizeFile]: a run of code units that are
    no letter, digit, underscore, dot or hyphen, replaced by one underscore. *)
Definition unsafeRunAt : matcher := fun s =>
  match takeWhile (fun c => negb (isKeyChar c)) s with
  | [] => None
  | run => Some (List.length run, [95])
  end.

(** [String(s).replace(/[^\w.-]+/g, "_").slice(0, 120)] *)
Definition sanitizeFile (s : jsstring) : jsstring :=
  firstn 120 (replaceAll unsafeRunAt s).

(** A document tree cut below a number of levels of child documents. *)
Fixpoint pruneTree (levels : nat) (d : SolvedRevision.DocTree)
  : SolvedRevision.DocTree :=
  match d with
  | SolvedRevision.DocNode id docName pages children =>
      SolvedRevision.DocNode id docName pages
        (match levels with
         | O => []
         | S k => List.map (pruneTree k) children
         end)
  end.

(** A document with a child document, both with a page that holds a block. *)
Definition childPage : Page :=
  {| page_id := str "p9"; page_name := str "Child page";
     date_updated := Some 1700000900000%Z;
     page_body := unlines ["[system]"; "name: Y"; "status: warn"; "message: slow";
                           "[/system]"]%string |}.

Definition nestedTree : SolvedRevision.DocTree :=
  SolvedRevision.DocNode (str "d1") (str "Status") [pageA]
    [ SolvedRevision.DocNode (str "d2") (str "Sub") [childPage]
        [ SolvedRevision.DocNode (str "d3") (str "Deep") [pageB] [] ] ].

(** * Properties *)

(** ** The content normalizer *)

Example prepare_demo :
  prepareSystemSource (str "\[system] a &lt; b &amp;&amp; c") = str "[system] a < b && c".
Proof. vm_compute. reflexivity. Qed.

Lemma replaceFrom_noop (m : matcher) (fuel : nat) (s : jsstring) :
  occurs m s = false -> replaceFrom m fuel s = s.
Proof.
  revert s. induction fuel as [|f IH]; intros s Hs; [reflexivity|].
  destruct s as [|c t]; [reflexivity|].
  simpl in *. destruct (m (c :: t)) as [[n rep]|]; [discriminate|].
  now rewrite IH.
Qed.

Lemma replaceFrom_length_le (m : matcher) (fuel : nat) (s : jsstring) :
  shrinking m -> (List.length s <= fuel)%nat ->
  (List.length (replaceFrom m fuel s) <= List.length s)%nat.
Proof.
  intros Hm. revert s. induction fuel as [|f IH]; intros s Hlen; [reflexivity|].
  destruct s as [|c t]; [reflexivity|].
  simpl in *. destruct (m (c :: t)) as [[n rep]|] eqn:E.
  - destruct (Hm _ _ _ E) as [H1 H2]. simpl in H2.
    rewrite length_app.
    assert (Hs : (List.length (skipn (Nat.pred n) t) <= f)%nat)
      by (rewrite length_skipn; lia).
    specialize (IH _ Hs). rewrite length_skipn in IH. lia.
  - simpl. assert (Ht : (List.length t <= f)%nat) by lia.
    specialize (IH _ Ht). lia.
Qed.


Lemma replaceAll_noop (m : matcher) (s : jsstring) :
  occurs m s = false -> replaceAll m s = s.
Proof. apply replaceFrom_noop. Qed.

Lemma replaceAll_length_le (m : matcher) (s : jsstring) :
  shrinking m -> (List.length (replaceAll m s) <= List.length s)%nat.
Proof. intros Hm. apply replaceFrom_length_le; [exact Hm | lia]. Qed.


Lemma startsWith_length (p s : jsstring) :
  startsWith p s = true -> (List.length p <= List.length s)%nat.
Proof.
  revert s. induction p as [|a p IH]; intros s H; simpl; [lia|].
  destruct s as [|b s]; [discriminate|].
  simpl in H. apply andb_prop in H as [_ H]. apply IH in H. simpl. lia.
Qed.

Lemma entityAt_shrinking : shrinking entityAt.
Proof.
  intros s n rep H. unfold entityAt, entityMap, firstEntity in H.
  repeat match type of H with
  | (if startsWith ?e ?s then _ else _) = _ =>
      let E := fresh "E" in
      destruct (startsWith e s) eqn:E;
      [ apply startsWith_length in E; inversion H; subst; clear H;
        vm_compute in E; vm_compute; split; [lia | exact E]
      | ]
  end.
  discriminate.
Qed.

Lemma escapedAt_shrinking (b : N) : shrinking (escapedAt b).
Proof.
  intros s n rep H. unfold escapedAt in H.
  destruct (startsWith [92; b] s) eqn:E; [|discriminate].
  apply startsWith_length in E. inversion H; subst. simpl in *. lia.
Qed.

Lemma zeroWidthAt_shrinking : shrinking zeroWidthAt.
Proof.
  intros s n rep H. unfold zeroWidthAt in H.
  destruct s as [|c t]; [discriminate|].
  destruct (isZeroWidth c); [|discriminate].
  inversion H; subst. simpl. lia.
Qed.

(** The last pass of the normalizer is a filter. *)
Lemma replaceFrom_zeroWidth (fuel : nat) (s : jsstring) :
  (List.length s <= fuel)%nat ->
  replaceFrom zeroWidthAt fuel s = List.filter (fun c => negb (isZeroWidth c)) s.
Proof.
  revert s. induction fuel as [|f IH]; intros s Hlen.
  - destruct s; [reflexivity | simpl in Hlen; lia].
  - destruct s as [|c t]; [reflexivity|].
    simpl in *. destruct (isZeroWidth c); simpl; rewrite ?drop_0, IH by lia; reflexivity.
Qed.






(** Texts without ampersand and without backslash are normalized in one
    pass: only the zero-width units are removed. *)
Lemma entityAt_head (c : N) (t : jsstring) : c <> 38 -> entityAt (c :: t) = None.
Proof.
  intros Hc. apply N.eqb_neq in Hc. rewrite N.eqb_sym in Hc.
  unfold entityAt, entityMap, firstEntity.
  change (str "&amp;") with (38 :: str "amp;").
  change (str "&lt;") with (38 :: str "lt;").
  change (str "&gt;") with (38 :: str "gt;").
  change (str "&quot;") with (38 :: str "quot;").
  change (str "&#39;") with (38 :: str "#39;").
  cbn [startsWith]. rewrite Hc. reflexivity.
Qed.

Lemma escapedAt_head (b c : N) (t : jsstring) :
  c <> 92 -> escapedAt b (c :: t) = None.
Proof.
  intros Hc. apply N.eqb_neq in Hc. rewrite N.eqb_sym in Hc.
  unfold escapedAt. cbn [startsWith]. rewrite Hc. reflexivity.
Qed.

Lemma occurs_entity_no_amp (s : jsstring) :
  ~ In 38 s -> occurs entityAt s = false.
Proof.
  induction s as [|c t IH]; intros Hn; [reflexivity|].
  cbn [occurs]. rewrite entityAt_head.
  - apply IH. intros Hin. apply Hn. now right.
  - intros ->. apply Hn. now left.
Qed.

Lemma occurs_escaped_no_backslash (b : N) (s : jsstring) :
  ~ In 92 s -> occurs (escapedAt b) s = false.
Proof.
  induction s as [|c t IH]; intros Hn; [reflexivity|].
  cbn [occurs]. rewrite escapedAt_head.
  - apply IH. intros Hin. apply Hn. now right.
  - intros ->. apply Hn. now left.
Qed.

Lemma prepare_plain_text (s : jsstring) :
  ~ In 38 s -> ~ In 92 s ->
  prepareSystemSource s = List.filter (fun c => negb (isZeroWidth c)) s.
Proof.
  intros Ha Hb. unfold prepareSystemSource.
  rewrite (replaceAll_noop _ _ (occurs_entity_no_amp s Ha)).
  rewrite (replaceAll_noop _ _ (occurs_escaped_no_backslash 91 s Hb)).
  rewrite (replaceAll_noop _ _ (occurs_escaped_no_backslash 93 s Hb)).
  unfold replaceAll. apply replaceFrom_zeroWidth. lia.
Qed.

Lemma filter_twice (p : N -> bool) (s : jsstring) :
  List.filter p (List.filter p s) = List.filter p s.
Proof.
  induction s as [|c r IH]; [reflexivity|].
  simpl. destruct (p c) eqn:E; simpl; [rewrite E, IH|]; auto.
Qed.

Lemma prepare_idempotent_plain_text (s : jsstring) :
  ~ In 38 s -> ~ In 92 s ->
  prepareSystemSource (prepareSystemSource s) = prepareSystemSource s.
Proof.
  intros Ha Hb. rewrite (prepare_plain_text s Ha Hb).
  rewrite prepare_plain_text.
  - apply filter_twice.
  - intros H; apply filter_In in H as [H _]; auto.
  - intros H; apply filter_In in H as [H _]; auto.
Qed.

(** The fuel of the scan is enough: any amount that covers the length of
    the text gives the same result. *)
Lemma replaceFrom_fuel (m : matcher) (f1 f2 : nat) (s : jsstring) :
  (List.length s <= f1)%nat -> (List.length s <= f2)%nat ->
  replaceFrom m f1 s = replaceFrom m f2 s.
Proof.
  revert f2 s. induction f1 as [|f1 IH]; intros f2 s H1 H2.
  - destruct s; [|simpl in H1; lia]. destruct f2; reflexivity.
  - destruct s as [|c t]; [destruct f2; reflexivity|].
    destruct f2 as [|f2]; [simpl in H2; lia|].
    simpl in *. destruct (m (c :: t)) as [[n rep]|].
    + f_equal. apply IH; rewrite length_skipn; lia.
    + f_equal. apply IH; lia.
Qed.

(** ** The normalizers and the visibility rule *)

Lemma normalizeDisplay_cases (s : option jsstring) :
  normalizeDisplay s = str "yes" \/ normalizeDisplay s = str "no" \/
  normalizeDisplay s = [].
Proof.
  unfold normalizeDisplay.
  destruct (oneOf _ _); [now left|].
  destruct (oneOf _ _); [right; now left | right; now right].
Qed.

Lemma normalizeSolved_cases (s : option jsstring) :
  normalizeSolved s = str "yes" \/ normalizeSolved s = str "no".
Proof.
  unfold normalizeSolved.
  destruct (oneOf _ _); [now left|].
  destruct (oneOf _ _); now right.
Qed.

Lemma normalizeStatus_cases (s : option jsstring) :
  normalizeStatus s = str "ok" \/ normalizeStatus s = str "warning" \/
  normalizeStatus s = str "error".
Proof.
  unfold normalizeStatus.
  destruct (jseqb _ (str "warn")); [right; now left|].
  destruct (jseqb _ (str "incident")); [right; now right|].
  destruct (jseqb _ (str "degraded")); [right; now left|].
  destruct (oneOf _ _) eqn:E; [|now left].
  unfold oneOf in E. cbn [existsb] in E.
  unfold jseqb in E.
  repeat (apply orb_prop in E as [E|E]);
    try (apply bool_decide_eq_true in E; rewrite E; auto); discriminate.
Qed.

(** An undefined property normalizes as the empty string does. *)
Lemma normalizeDisplay_undefined : normalizeDisplay None = [].
Proof. vm_compute. reflexivity. Qed.

Lemma normalizeSolved_undefined : normalizeSolved None = str "no".
Proof. vm_compute. reflexivity. Qed.

(** What the two branches of the visibility test compute. *)
Lemma isVisible_spec (obj : gmap jsstring jsstring) :
  isVisible obj =
    if jseqb (normalizeDisplay (obj !! str "display")) (str "yes") then true
    else if jseqb (normalizeDisplay (obj !! str "display")) (str "no") then false
    else jseqb (normalizeSolved (obj !! str "solved")) (str "no").
Proof.
  unfold isVisible.
  generalize (jseqb (normalizeSolved (obj !! str "solved")) (str "no")).
  intros b.
  destruct (normalizeDisplay_cases (obj !! str "display")) as [E|[E|E]];
    rewrite E; vm_compute; reflexivity.
Qed.

Lemma included_spec (innerRaw : jsstring) :
  truthy (trim innerRaw) = true ->
  included innerRaw = isVisible (parseBlock innerRaw).
Proof.
  intros H. unfold included, blockEntries. rewrite H. simpl.
  destruct (isVisible _); reflexivity.
Qed.

Lemma jseqb_true (a b : jsstring) : jseqb a b = true <-> a = b.
Proof. unfold jseqb. apply bool_decide_eq_true. Qed.

(** What the visibility test computes: a block is included exactly when its
    display field normalizes to "yes", or normalizes to neither "yes" nor
    "no" (the field is absent, empty or unrecognized) while the legacy
    solved field normalizes to "no". *)
Theorem visibility_rule (innerRaw : jsstring) :
  truthy (trim innerRaw) = true ->
  included innerRaw = true <->
    normalizeDisplay (parseBlock innerRaw !! str "display") = str "yes" \/
    (normalizeDisplay (parseBlock innerRaw !! str "display") = [] /\
     normalizeSolved (parseBlock innerRaw !! str "solved") = str "no").
Proof.
  intros H. rewrite (included_spec _ H), isVisible_spec.
  destruct (normalizeDisplay_cases (parseBlock innerRaw !! str "display"))
    as [E|[E|E]]; rewrite E.
  - change (jseqb (str "yes") (str "yes")) with true. cbv iota.
    split; [now left | reflexivity].
  - replace (jseqb (str "no") (str "yes")) with false by (vm_compute; reflexivity).
    replace (jseqb (str "no") (str "no")) with true by (vm_compute; reflexivity).
    cbv iota. split; [discriminate|].
    intros [F|[F _]]; vm_compute in F; discriminate.
  - replace (jseqb [] (str "yes")) with false by (vm_compute; reflexivity).
    replace (jseqb [] (str "no")) with false by (vm_compute; reflexivity).
    cbv iota. rewrite jseqb_true. split.
    + intros F. right. split; [reflexivity | exact F].
    + intros [F|[_ F]]; [vm_compute in F; discriminate | exact F].
Qed.

(** The rule at a block whose display is "on" and whose solved is "yes". *)
Lemma visibility_rule_witness :
  truthy (trim (unlines [""; "display: on"; "solved: yes"; ""]%string)) = true /\
  (included (unlines [""; "display: on"; "solved: yes"; ""]%string) = true <->
   normalizeDisplay
     (parseBlock (unlines [""; "display: on"; "solved: yes"; ""]%string)
        !! str "display") = str "yes" \/
   (normalizeDisplay
      (parseBlock (unlines [""; "display: on"; "solved: yes"; ""]%string)
         !! str "display") = [] /\
    normalizeSolved
      (parseBlock (unlines [""; "display: on"; "solved: yes"; ""]%string)
         !! str "solved") = str "no")).
Proof.
  split; [vm_compute; reflexivity|].
  apply (visibility_rule (unlines [""; "display: on"; "solved: yes"; ""]%string)).
  vm_compute; reflexivity.
Defined.

(** The three cases the rule is illustrated with: no display field and
    solved "no", the same with solved "yes", and display "no". *)
Lemma legacy_rule_without_display (obj : gmap jsstring jsstring) :
  obj !! str "display" = None ->
  isVisible obj = jseqb (normalizeSolved (obj !! str "solved")) (str "no").
Proof.
  intros H. unfold isVisible. rewrite H, normalizeDisplay_undefined. reflexivity.
Qed.

Lemma display_no_excludes (obj : gmap jsstring jsstring) :
  normalizeDisplay (obj !! str "display") = str "no" -> isVisible obj = false.
Proof. intros H. rewrite isVisible_spec, H. vm_compute. reflexivity. Qed.

Example dual_rule_examples :
  included (unlines [""; "name: X"; "solved: no"; ""]%string) = true /\
  included (unlines [""; "name: X"; "solved: yes"; ""]%string) = false /\
  included (unlines [""; "name: X"; "display: no"; "solved: no"; ""]%string) = false /\
  included (unlines [""; "name: X"; "display: no"; "solved: yes"; ""]%string) = false.
Proof. vm_compute. repeat split. Qed.

(** C2: the code does not keep to the rule, which the comment above its
    visibility test states too (a display field that exists controls
    visibility, the legacy flag counts only without it): a block whose
    display field is present with a value that is not recognized, and whose
    solved field says "no", is included, although its display field neither
    normalizes to "yes" nor is absent.  The test looks at the normalized
    value, which is empty for such a field, and takes the legacy branch. *)
Lemma unrecognized_display_included :
  included maybeBlock = true /\
  parseBlock maybeBlock !! str "display" = Some (str "maybe") /\
  normalizeDisplay (Some (str "maybe")) = [] /\
  ~ (forall innerRaw,
       truthy (trim innerRaw) = true ->
       included innerRaw = true <->
         (exists d, parseBlock innerRaw !! str "display" = Some d /\
                    normalizeDisplay (Some d) = str "yes") \/
         (parseBlock innerRaw !! str "display" = None /\
          normalizeSolved (parseBlock innerRaw !! str "solved") = str "no")).
Proof.
  assert (Hd : parseBlock maybeBlock !! str "display" = Some (str "maybe"))
    by (vm_compute; reflexivity).
  assert (Hi : included maybeBlock = true) by (vm_compute; reflexivity).
  split; [exact Hi|]. split; [exact Hd|]. split; [vm_compute; reflexivity|].
  intros H. specialize (H maybeBlock).
  destruct H as [H _]; [vm_compute; reflexivity|].
  destruct (H Hi) as [[d [E1 E2]]|[E _]].
  - rewrite Hd in E1. inversion E1; subst d. vm_compute in E2. discriminate.
  - rewrite Hd in E. discriminate.
Qed.

Example maybeBody_extracted :
  List.map name (extractAllSystemEntries maybeBody) = [str "X"].
Proof. vm_compute. reflexivity. Qed.

(** C10: when a block has both the display field and the legacy solved
    field, a display value that normalizes to "yes" or "no" decides alone
    whether the block is included; a display value that normalizes to neither
    leaves the decision to the solved rule. *)
Theorem display_precedence (innerRaw d sv : jsstring) :
  truthy (trim innerRaw) = true ->
  parseBlock innerRaw !! str "display" = Some d ->
  parseBlock innerRaw !! str "solved" = Some sv ->
  included innerRaw =
    if jseqb (normalizeDisplay (Some d)) (str "yes") then true
    else if jseqb (normalizeDisplay (Some d)) (str "no") then false
    else jseqb (normalizeSolved (Some sv)) (str "no").
Proof.
  intros H Hd Hs. rewrite (included_spec _ H), isVisible_spec, Hd, Hs.
  reflexivity.
Qed.

(** The precedence at a block with display "maybe" and solved "no". *)
Lemma display_precedence_witness :
  truthy (trim maybeBlock) = true /\
  parseBlock maybeBlock !! str "display" = Some (str "maybe") /\
  parseBlock maybeBlock !! str "solved" = Some (str "no") /\
  included maybeBlock =
    if jseqb (normalizeDisplay (Some (str "maybe"))) (str "yes") then true
    else if jseqb (normalizeDisplay (Some (str "maybe"))) (str "no") then false
    else jseqb (normalizeSolved (Some (str "no"))) (str "no").
Proof.
  split; [vm_compute; reflexivity|].
  split; [vm_compute; reflexivity|].
  split; [vm_compute; reflexivity|].
  apply (display_precedence maybeBlock (str "maybe") (str "no"));
    vm_compute; reflexivity.
Defined.

Example display_precedence_examples :
  included (unlines [""; "display: yes"; "solved: yes"; ""]%string) = true /\
  included (unlines [""; "display: off"; "solved: no"; ""]%string) = false /\
  included (unlines [""; "display: maybe"; "solved: yes"; ""]%string) = false /\
  included (unlines [""; "display: maybe"; "solved: no"; ""]%string) = true.
Proof. vm_compute. repeat split. Qed.

(** ** The audience list *)

(** C4, at the failing input: a token with a scheme and a path keeps both;
    only white space, letter case and a leading "www." are normalized. *)
Theorem parseDomains_keeps_scheme_and_path :
  parseDomains (Some (str "https://www.Example.com/status"))
  = [str "https://www.example.com/status"] /\
  List.map domains
    (extractAllSystemEntries
       (unlines ["[system]"; "name: X"; "domain: https://www.Example.com/status";
                 "[/system]"]%string))
  = [[str "https://www.example.com/status"]].
Proof. vm_compute. split; reflexivity. Qed.

Example parseDomains_demo :
  parseDomains (Some (str "Example.com, www.Foo.org, example.com"))
  = [str "example.com"; str "foo.org"].
Proof. vm_compute. reflexivity. Qed.

(** ** The message text *)

(** C5, at the failing input: the end-to-end example of the specification
    yields a message that ends in a line feed; the accumulated text is
    emitted as it is, not trimmed. *)
Theorem message_not_trimmed :
  List.map message (extractAllSystemEntries demoBody)
  = [str "Partial outages expected." ++ [LF]] /\
  trim (str "Partial outages expected." ++ [LF]) = str "Partial outages expected.".
Proof. vm_compute. split; reflexivity. Qed.

(** The second half of C4 holds: a token that trims to "@" makes the whole
    list global. *)
Lemma parseDomains_at_collapses (v tok : jsstring) :
  In tok (splitOn 44 (trim v)) -> trim tok = str "@" ->
  parseDomains (Some v) = [].
Proof.
  intros Hin Htok. unfold parseDomains.
  destruct (negb (truthy (trim v)) || jseqb (trim v) (str "@")); [reflexivity|].
  match goal with |- (if ?b then _ else _) = _ => assert (Hb : b = true) end.
  { apply existsb_exists. exists (str "@"). split; [|vm_compute; reflexivity].
    change (str "@") with (stripWww (str "@")) at 1.
    apply in_map. apply filter_In. split; [|reflexivity].
    change (str "@") with (toLowerCase (str "@")). rewrite <- Htok.
    apply (in_map (fun x => toLowerCase (trim x))). exact Hin. }
  rewrite Hb. reflexivity.
Qed.

Example parseDomains_at_demo :
  parseDomains (Some (str "example.com, @ ,foo.org")) = [] /\
  parseDomains (Some (str "@")) = [] /\ parseDomains None = [].
Proof. vm_compute. repeat split. Qed.

(** ** The block scanner *)

Lemma startsWithCI_length (p s : jsstring) :
  startsWithCI p s = true -> (List.length p <= List.length s)%nat.
Proof.
  revert s. induction p as [|a p IH]; intros s H; simpl; [lia|].
  destruct s as [|b s]; [discriminate|].
  simpl in H. apply andb_prop in H as [_ H]. apply IH in H. simpl. lia.
Qed.

Lemma splitAtCI_length (pat s before after : jsstring) :
  splitAtCI pat s = Some (before, after) ->
  List.length s = (List.length before + List.length pat + List.length after)%nat.
Proof.
  revert before after. induction s as [|c t IH]; intros before after H.
  - cbn [splitAtCI] in H. destruct (startsWithCI pat []) eqn:E; [|discriminate].
    inversion H; subst. apply startsWithCI_length in E.
    rewrite length_skipn. simpl in *. lia.
  - cbn [splitAtCI] in H. destruct (startsWithCI pat (c :: t)) eqn:E.
    + inversion H; subst. apply startsWithCI_length in E.
      rewrite length_skipn. simpl in *. lia.
    + destruct (splitAtCI pat t) as [[b a]|]; [|discriminate].
      inversion H; subst. specialize (IH _ _ eq_refl). simpl. lia.
Qed.

(** The scan for blocks ends within its fuel: any amount that covers the
    length of the text finds the same matches. *)
Lemma execAll_fuel (f1 f2 : nat) (plain : jsstring) :
  (List.length plain <= f1)%nat -> (List.length plain <= f2)%nat ->
  execAll f1 plain = execAll f2 plain.
Proof.
  revert f2 plain. induction f1 as [|f1 IH]; intros f2 plain H1 H2.
  - destruct plain; [|simpl in H1; lia]. destruct f2; reflexivity.
  - destruct f2 as [|f2].
    + destruct plain; [reflexivity | simpl in H2; lia].
    + cbn [execAll].
      destruct (splitAtCI (str "[system]") plain) as [[b r]|] eqn:E1; [|reflexivity].
      destruct (splitAtCI (str "[/system]") r) as [[inner r']|] eqn:E2; [|reflexivity].
      apply splitAtCI_length in E1, E2.
      change (List.length (str "[system]")) with 8%nat in E1.
      change (List.length (str "[/system]")) with 9%nat in E2.
      f_equal. apply IH; lia.
Qed.

Example systemMatches_demo :
  systemMatches (str "a [System]x[/SYSTEM] b [system][/system][system] y [/system] [system] z")
  = [str "x"; []; str " y "].
Proof. vm_compute. reflexivity. Qed.

(** ** Sorting *)

Section SortFacts.
Context {A : Type}.
Variable cmp : A -> A -> Z.
Hypothesis cmp_total : forall a b, (0 < cmp a b)%Z -> (cmp b a <= 0)%Z.
Hypothesis cmp_trans :
  forall a b c, (cmp a b <= 0)%Z -> (cmp b c <= 0)%Z -> (cmp a c <= 0)%Z.

Lemma insertSorted_perm (x : A) (l : list A) :
  Permutation (insertSorted cmp x l) (x :: l).
Proof.
  induction l as [|y t IH]; simpl; [reflexivity|].
  destruct (cmp x y <=? 0)%Z; [reflexivity|].
  rewrite IH. apply perm_swap.
Qed.

Lemma sortBy_perm (l : list A) : Permutation (sortBy cmp l) l.
Proof.
  induction l as [|x t IH]; simpl; [reflexivity|].
  rewrite insertSorted_perm. now constructor.
Qed.

Lemma insertSorted_sorted (x : A) (l : list A) :
  StronglySorted (fun a b => (cmp a b <= 0)%Z) l ->
  StronglySorted (fun a b => (cmp a b <= 0)%Z) (insertSorted cmp x l).
Proof.
  induction l as [|y t IH]; intros Hs; simpl.
  - constructor; constructor.
  - inversion Hs as [|? ? Ht Hy]; subst.
    destruct (cmp x y <=? 0)%Z eqn:E.
    + apply Z.leb_le in E. constructor; [exact Hs|].
      constructor; [exact E|].
      eapply Forall_impl; [|exact Hy]. intros b Hb. cbv beta in Hb. eauto.
    + apply Z.leb_gt in E. constructor; [now apply IH|].
      eapply Permutation_Forall; [symmetry; apply insertSorted_perm|].
      constructor; [now apply cmp_total | exact Hy].
Qed.

Lemma sortBy_sorted (l : list A) :
  StronglySorted (fun a b => (cmp a b <= 0)%Z) (sortBy cmp l).
Proof.
  induction l as [|x t IH]; simpl; [constructor|].
  now apply insertSorted_sorted.
Qed.
End SortFacts.

Lemma StronglySorted_weaken {A : Type} (R R' : A -> A -> Prop) (l : list A) :
  (forall a b, In a l -> In b l -> R a b -> R' a b) ->
  StronglySorted R l -> StronglySorted R' l.
Proof.
  intros H Hs. induction Hs as [|a l Hs IH Ha]; [constructor|].
  constructor.
  - apply IH. intros x y Hx Hy. apply H; now right.
  - rewrite Forall_forall in *. intros b Hb.
    apply H; [now left | now right | now apply Ha].
Qed.

Lemma compareMessages_le (a b : Message) :
  (compareMessages a b <= 0)%Z <->
  (rank a < rank b)%Z \/ (rank a = rank b /\ (parsedTime b <= parsedTime a)%Z).
Proof.
  unfold compareMessages, rank.
  destruct (Z.eqb_spec (sev (status (entry a))) (sev (status (entry b))));
    simpl; lia.
Qed.

Lemma compareMessages_total (a b : Message) :
  (0 < compareMessages a b)%Z -> (compareMessages b a <= 0)%Z.
Proof.
  intros H. apply compareMessages_le.
  assert (~ (compareMessages a b <= 0)%Z) as Hn by lia.
  rewrite compareMessages_le in Hn. lia.
Qed.

Lemma compareMessages_trans (a b c : Message) :
  (compareMessages a b <= 0)%Z -> (compareMessages b c <= 0)%Z ->
  (compareMessages a c <= 0)%Z.
Proof. rewrite !compareMessages_le. lia. Qed.

(** The timestamp of a collected message is that of its page, and never 0. *)
Lemma collectMessages_updated (cutoffMs : Z) (docs : list Doc) (m : Message) (t : Z) :
  In m (collectMessages cutoffMs docs) -> updated m = Some t ->
  t <> 0%Z /\ exists d p, In d docs /\ In p (doc_pages d) /\ date_updated p = Some t.
Proof.
  unfold collectMessages. intros Hin Hu.
  apply in_flat_map in Hin as [d [Hd Hin]].
  apply in_flat_map in Hin as [p [Hp Hin]].
  assert (Hp' : In p (doc_pages d)).
  { unfold recentPages in Hp. destruct (cutoffMs =? 0)%Z; [exact Hp|].
    now apply filter_In in Hp as [Hp _]. }
  unfold pageMessages in Hin. destruct (negb (truthy (page_body p))); [contradiction|].
  apply in_map_iff in Hin as [f [Hf _]]. subst m. simpl in Hu.
  unfold updatedOf in Hu. destruct (date_updated p) as [t'|] eqn:E; [|discriminate].
  destruct (Z.eqb_spec t' 0); [discriminate|]. inversion Hu; subst t'.
  split; [assumption|]. exists d, p. auto.
Qed.

Lemma collectMessages_status (cutoffMs : Z) (docs : list Doc) (m : Message) :
  In m (collectMessages cutoffMs docs) ->
  status (entry m) = str "error" \/ status (entry m) = str "warning" \/
  status (entry m) = str "ok".
Proof.
  unfold collectMessages. intros Hin.
  apply in_flat_map in Hin as [d [_ Hin]].
  apply in_flat_map in Hin as [p [_ Hin]].
  unfold pageMessages in Hin. destruct (negb (truthy (page_body p))); [contradiction|].
  apply in_map_iff in Hin as [f [<- Hf]]. cbn [entry].
  unfold extractAllSystemEntries in Hf.
  apply in_flat_map in Hf as [inner [_ Hf]].
  unfold blockEntries in Hf.
  destruct (negb (truthy (trim inner))); [contradiction|].
  destruct (isVisible _); [|contradiction].
  destruct Hf as [<-|[]]. unfold entryOf. cbn [status].
  destruct (normalizeStatus_cases (parseBlock inner !! str "status")) as [E|[E|E]];
    rewrite E; auto.
Qed.

(** C6: the message list of a run is the collected entries rearranged by
    severity rank, error (0) before warning (1) before ok (2), and within one
    severity by timestamp, most recent first, an entry without timestamp
    counting as timestamp 0.  With page timestamps that are epoch
    milliseconds (not negative) the entries without timestamp are the oldest
    and come last within their severity. *)
Theorem messages_sorted (cutoffMs : Z) (docs : list Doc) (now : jsstring) :
  let ms := messages (harvestSystemMessagesFromDocs cutoffMs docs now) in
  Permutation ms (collectMessages cutoffMs docs) /\
  Forall (fun m => (status (entry m) = str "error" /\ rank m = 0%Z) \/
                   (status (entry m) = str "warning" /\ rank m = 1%Z) \/
                   (status (entry m) = str "ok" /\ rank m = 2%Z)) ms /\
  StronglySorted
    (fun a b => (rank a < rank b)%Z \/
                (rank a = rank b /\ (parsedTime b <= parsedTime a)%Z)) ms /\
  ((forall d p t, In d docs -> In p (doc_pages d) ->
                  date_updated p = Some t -> (0 <= t)%Z) ->
   StronglySorted precedes ms).
Proof.
  cbv zeta. cbn [messages harvestSystemMessagesFromDocs].
  pose proof (sortBy_perm compareMessages (collectMessages cutoffMs docs)) as Hperm.
  pose proof (sortBy_sorted compareMessages compareMessages_total
                compareMessages_trans (collectMessages cutoffMs docs)) as Hsorted.
  set (ms := sortBy compareMessages (collectMessages cutoffMs docs)) in *.
  split; [exact Hperm|]. split; [|split].
  - apply Forall_forall. intros m Hm.
    eapply Permutation_in in Hm; [|exact Hperm].
    unfold rank.
    destruct (collectMessages_status _ _ _ Hm) as [E|[E|E]]; rewrite E.
    + left. split; reflexivity.
    + right. left. split; reflexivity.
    + right. right. split; reflexivity.
  - eapply StronglySorted_weaken; [|exact Hsorted].
    intros a b _ _ Hle. now apply compareMessages_le.
  - intros Hpos.
    eapply StronglySorted_weaken; [|exact Hsorted].
    intros a b Ha Hb Hle. cbv beta in Hle.
    assert (Hin : forall m, In m ms -> forall t, updated m = Some t -> (0 < t)%Z).
    { intros m Hm t Ht.
      eapply Permutation_in in Hm; [|exact Hperm].
      destruct (collectMessages_updated _ _ _ _ Hm Ht) as [Hz [d [p [Hd [Hp Hdt]]]]].
      specialize (Hpos d p t Hd Hp Hdt). lia. }
    apply compareMessages_le in Hle. unfold precedes.
    destruct Hle as [Hlt|[Heq Ht]]; [now left|]. right. split; [exact Heq|].
    unfold notOlder. unfold parsedTime in Ht.
    pose proof (Hin a Ha) as Pa. pose proof (Hin b Hb) as Pb.
    destruct (updated a) as [ta|], (updated b) as [tb|]; auto.
    specialize (Pb tb eq_refl). lia.
Qed.

(** The order at a document with entries of the three severities. *)
Lemma messages_sorted_witness :
  (forall d p t, In d severityPages -> In p (doc_pages d) ->
                 date_updated p = Some t -> (0 <= t)%Z) /\
  StronglySorted precedes
    (messages (harvestSystemMessagesFromDocs 0 severityPages (str "now"))).
Proof.
  assert (H : forall d p t, In d severityPages -> In p (doc_pages d) ->
                 date_updated p = Some t -> (0 <= t)%Z).
  { intros d p t [<-|[]] Hp Ht. simpl in Hp.
    destruct Hp as [<-|[<-|[<-|[]]]]; simpl in Ht; inversion Ht; lia. }
  split; [exact H|].
  apply (proj2 (proj2 (proj2 (messages_sorted 0 severityPages (str "now")))) H).
Defined.

Example severity_order_demo :
  List.map (fun m => (name (entry m), status (entry m), updated m))
    (messages (harvestSystemMessagesFromDocs 0 severityPages (str "now")))
  = [ (str "D", str "error", Some 1000%Z); (str "B", str "error", None);
      (str "C", str "warning", Some 1000%Z); (str "A", str "ok", Some 3000%Z) ].
Proof. vm_compute. reflexivity. Qed.

(** ** Overall severity *)

Lemma hasStatus_Exists (w : string) (ms : list Message) :
  hasStatus w ms = true <-> Exists (fun m => status (entry m) = str w) ms.
Proof.
  unfold hasStatus. rewrite existsb_exists, Exists_exists.
  unfold jseqb.
  split; intros [m [Hin H]]; exists m; (split; [exact Hin|]).
  - now apply bool_decide_eq_true in H.
  - now apply bool_decide_eq_true.
Qed.

(** C7: the overall severity of a snapshot is "error" when some entry has
    status "error", otherwise "warn" when some entry has status "warning",
    otherwise "ok"; the entry value "warning" becomes the aggregate value
    "warn", and "warning" is never the overall value. *)
Theorem overall_severity (cutoffMs : Z) (docs : list Doc) (now : jsstring) :
  let s := harvestSystemMessagesFromDocs cutoffMs docs now in
  let some (w : string) := Exists (fun m => status (entry m) = str w) (messages s) in
  ((overall s = str "error" /\ some "error"%string) \/
   (overall s = str "warn" /\ ~ some "error"%string /\ some "warning"%string) \/
   (overall s = str "ok" /\ ~ some "error"%string /\ ~ some "warning"%string)) /\
  overall s <> str "warning".
Proof.
  cbv zeta. cbn [overall messages harvestSystemMessagesFromDocs].
  set (ms := sortBy compareMessages (collectMessages cutoffMs docs)).
  unfold overallOf.
  destruct (hasStatus "error" ms) eqn:E.
  { split; [|vm_compute; discriminate].
    left. split; [reflexivity|]. now apply hasStatus_Exists. }
  assert (Hne : ~ Exists (fun m => status (entry m) = str "error") ms).
  { intros H. apply hasStatus_Exists in H. congruence. }
  destruct (hasStatus "warning" ms) eqn:W.
  { split; [|vm_compute; discriminate].
    right. left. split; [reflexivity|]. split; [exact Hne|].
    now apply hasStatus_Exists. }
  split; [|vm_compute; discriminate].
  right. right. split; [reflexivity|]. split; [exact Hne|].
  intros H. apply hasStatus_Exists in H. congruence.
Qed.

Example overall_demo :
  overall (harvestSystemMessagesFromDocs 0 severityPages (str "now")) = str "error" /\
  overall (harvestSystemMessagesFromDocs 0 [] (str "now")) = str "ok" /\
  overallOf
    [ {| entry := {| name := str "C"; status := str "warning"; display := str "yes";
                     domains := []; message := [] |};
         m_doc_id := []; m_doc_name := []; m_page_id := []; m_page_name := [];
         updated := None |} ] = str "warn".
Proof. vm_compute. repeat split. Qed.

(** ** De-duplication *)


Section Dedup.
Import SolvedRevision.

Lemma dedupFrom_In (seen : gset jsstring) (l : list Entry) (r : Entry) :
  In r (dedupFrom seen l) -> In r l.
Proof.
  revert seen. induction l as [|x t IH]; intros seen H; [contradiction|].
  simpl in H. destruct (bool_decide (keyOf x ∈ seen)).
  - right. eapply IH, H.
  - destruct H as [->|H]; [now left | right; eapply IH, H].
Qed.








End Dedup.

Example dedup_demo :
  List.map solvedTriple
    (SolvedRevision.extractAllSystemEntries
       (unlines ["[system]"; "name: X"; "status: error"; "message: down"; "[/system]";
                 "[system]"; "name: Y"; "message: up"; "[/system]";
                 "[system]"; "name: X"; "status: incident"; "message: down"; "[/system]"]%string))
  = [ (str "X", str "error", str "down"); (str "Y", str "ok", str "up") ].
Proof. vm_compute. reflexivity. Qed.

(** ** The resilient fetch wrapper *)

Lemma backoffLoop_scripted {A : Type} (outs : nat -> Outcome A) (tries : nat) :
  forall (left i : nat) (delay : Z) (w : Net),
    (left + i = tries)%nat -> calls w = i -> (0 < left)%nat ->
    let '(r, w') := backoffLoop sleepNet (scripted outs) tries left i delay w in
    (i < calls w' <= tries)%nat /\
    r = outs (calls w' - 1)%nat /\
    (forall j, (i <= j < calls w' - 1)%nat -> isRetriableError (outs j) = true) /\
    ((calls w' < tries)%nat -> isRetriableError (outs (calls w' - 1)%nat) = false) /\
    sleeps w' = sleeps w ++ delaysFrom delay (calls w' - 1 - i).
Proof.
  induction left as [|left IH]; intros i delay w Hsum Hcalls Hpos; [lia|].
  cbn [backoffLoop]. unfold scripted at 1. rewrite Hcalls.
  destruct (outs i) as [v|err] eqn:Ei.
  - cbn [calls sleeps].
    replace (S i - 1)%nat with i by lia. replace (i - i)%nat with 0%nat by lia.
    rewrite Ei. cbn [isRetriableError delaysFrom]. rewrite app_nil_r.
    repeat split; try lia.
  - destruct (retriable err && (i <? tries - 1)%nat) eqn:Ec.
    + apply andb_prop in Ec as [Er Elt]. apply Nat.ltb_lt in Elt.
      specialize (IH (S i) (Z.min (delay * 2) 8000)
                    (sleepNet delay {| calls := S i; sleeps := sleeps w |})).
      destruct (backoffLoop sleepNet (scripted outs) tries left (S i) _ _)
        as [r w'] eqn:El.
      destruct IH as (Hb & Hr & Hall & Hlast & Hs); [lia | reflexivity | lia |].
      repeat split; try lia; try assumption.
      * intros j Hj. destruct (Nat.eq_dec j i) as [->|Hne].
        -- rewrite Ei. exact Er.
        -- apply Hall. lia.
      * rewrite Hs. cbn [sleepNet sleeps calls].
        replace (calls w' - 1 - i)%nat with (S (calls w' - 1 - S i)) by lia.
        cbn [delaysFrom]. rewrite <- app_assoc. reflexivity.
    + cbn [calls sleeps].
      replace (S i - 1)%nat with i by lia. replace (i - i)%nat with 0%nat by lia.
      rewrite Ei. cbn [isRetriableError delaysFrom]. rewrite app_nil_r.
      repeat split; try lia.
      intros Hlt. apply andb_false_iff in Ec as [Er|Elt]; [exact Er|].
        apply Nat.ltb_ge in Elt. lia.
Qed.

(** The test of the loop, in terms of the status the error carries. *)
Lemma retriable_status (e : JsError) :
  retriable e = true <->
  exists s, err_status e = Some s /\ (s = 429 \/ 500 <= s < 600)%Z.
Proof.
  unfold retriable. destruct (err_status e) as [s|].
  - rewrite orb_true_iff, andb_true_iff, Z.eqb_eq, Z.leb_le, Z.ltb_lt. split.
    + intros H. exists s. split; [reflexivity | lia].
    + intros [s' [E H]]. injection E as <-. lia.
  - split; [discriminate | intros [s [E _]]; discriminate].
Qed.

(** C8: with the default bound of five tries, the wrapper calls [fn] at
    least once and at most five times and returns or rethrows the outcome of
    the last call.  Every call before the last threw an error whose status
    is 429 or lies in 500-599; when the wrapper stops before the fifth call,
    the last outcome is a value or an error whose status is neither 429 nor
    in 500-599 (or that has no status), which is rethrown without a further
    call; after five errors with such a status the fifth is thrown.  The
    delays slept are 600, 1200, 2400 and 4800 ms. *)
Theorem withBackoff_retries {A : Type} (outs : nat -> Outcome A) :
  let '(r, w) := withBackoff sleepNet (scripted outs) 5 600 net0 in
  (1 <= calls w <= 5)%nat /\
  r = outs (calls w - 1)%nat /\
  (forall j, (j < calls w - 1)%nat ->
     exists e s, outs j = Throw e /\ err_status e = Some s /\
                 (s = 429 \/ 500 <= s < 600)%Z) /\
  ((calls w < 5)%nat ->
     forall e, outs (calls w - 1)%nat = Throw e ->
       err_status e = None \/
       exists s, err_status e = Some s /\ s <> 429%Z /\ ~ (500 <= s < 600)%Z) /\
  ((forall j, (j < 5)%nat ->
      exists e s, outs j = Throw e /\ err_status e = Some s /\
                  (s = 429 \/ 500 <= s < 600)%Z) ->
   calls w = 5%nat /\ r = outs 4%nat) /\
  sleeps w = firstn (calls w - 1) [600; 1200; 2400; 4800]%Z.
Proof.
  unfold withBackoff.
  pose proof (backoffLoop_scripted outs 5 5 0 600 net0) as H.
  destruct (backoffLoop sleepNet (scripted outs) 5 5 0 600 net0) as [r w].
  destruct H as (Hb & Hr & Hall & Hlast & Hs); [reflexivity | reflexivity | lia |].
  assert (Hstop : (calls w < 5)%nat ->
            forall e, outs (calls w - 1)%nat = Throw e ->
              err_status e = None \/
              exists s, err_status e = Some s /\ s <> 429%Z /\ ~ (500 <= s < 600)%Z).
  { intros Hlt e He. specialize (Hlast Hlt). rewrite He in Hlast.
    cbn [isRetriableError] in Hlast.
    destruct (err_status e) as [s|] eqn:Es; [right | now left].
    exists s. split; [reflexivity|].
    assert (Hn : ~ (s = 429 \/ 500 <= s < 600)%Z).
    { intros Hs'. assert (retriable e = true) as Ht
        by (apply retriable_status; exists s; split; [exact Es | exact Hs']).
      rewrite Ht in Hlast. discriminate. }
    lia. }
  split; [lia|]. split; [exact Hr|]. split; [|split; [exact Hstop|split]].
  - intros j Hj. specialize (Hall j ltac:(lia)).
    destruct (outs j) as [v|e]; [discriminate|].
    cbn [isRetriableError] in Hall. apply retriable_status in Hall as [s [Es Hs']].
    exists e, s. split; [reflexivity | split; assumption].
  - intros Hfive.
    assert (calls w = 5%nat) as Hc.
    { destruct (Nat.eq_dec (calls w) 5) as [E|Hne]; [exact E | exfalso].
      assert (Hlt : (calls w < 5)%nat) by lia.
      destruct (Hfive (calls w - 1)%nat ltac:(lia)) as [e [s [He [Es Hs']]]].
      destruct (Hstop Hlt e He) as [En|[s' [Es' Hn]]].
      - rewrite En in Es. discriminate.
      - rewrite Es' in Es. injection Es as ->. lia. }
    split; [exact Hc|]. rewrite Hr, Hc. reflexivity.
  - rewrite Hs. cbn [net0 sleeps app]. replace (calls w - 1 - 0)%nat with (calls w - 1)%nat by lia.
    destruct (calls w) as [|[|[|[|[|[|n]]]]]]; try lia; reflexivity.
Qed.

(** Five failures with a retriable status: the fifth error reaches the
    caller after five calls. *)
Lemma withBackoff_exhausted {A : Type} (outs : nat -> Outcome A) :
  (forall j, (j < 5)%nat -> isRetriableError (outs j) = true) ->
  exists w, withBackoff sleepNet (scripted outs) 5 600 net0 = (outs 4%nat, w) /\
            calls w = 5%nat /\ sleeps w = [600; 1200; 2400; 4800]%Z.
Proof.
  intros H. unfold withBackoff. cbn [backoffLoop]. unfold scripted, net0.
  cbn [calls sleeps].
  pose proof (H 0%nat) as H0. pose proof (H 1%nat) as H1. pose proof (H 2%nat) as H2.
  pose proof (H 3%nat) as H3. pose proof (H 4%nat) as H4.
  destruct (outs 0%nat) as [?|e0]; [discriminate H0; lia|].
  cbn [isRetriableError] in H0. rewrite H0 by lia. cbn [andb Nat.ltb Nat.leb Nat.sub sleepNet calls sleeps].
  destruct (outs 1%nat) as [?|e1]; [discriminate H1; lia|].
  cbn [isRetriableError] in H1. rewrite H1 by lia. cbn [andb Nat.ltb Nat.leb Nat.sub sleepNet calls sleeps].
  destruct (outs 2%nat) as [?|e2]; [discriminate H2; lia|].
  cbn [isRetriableError] in H2. rewrite H2 by lia. cbn [andb Nat.ltb Nat.leb Nat.sub sleepNet calls sleeps].
  destruct (outs 3%nat) as [?|e3]; [discriminate H3; lia|].
  cbn [isRetriableError] in H3. rewrite H3 by lia. cbn [andb Nat.ltb Nat.leb Nat.sub sleepNet calls sleeps].
  destruct (outs 4%nat) as [?|e4]; [discriminate H4; lia|].
  cbn [isRetriableError] in H4. rewrite H4 by lia. cbn [andb Nat.ltb Nat.leb Nat.sub sleepNet calls sleeps].
  eexists. split; [reflexivity|]. split; reflexivity.
Qed.

(** An error with any other status, or with none, is rethrown by the call
    that met it. *)
Lemma withBackoff_fatal {A : Type} (outs : nat -> Outcome A) (e : JsError) :
  outs 0%nat = Throw e -> retriable e = false ->
  withBackoff sleepNet (scripted outs) 5 600 net0
  = (Throw e, {| calls := 1; sleeps := [] |}).
Proof.
  intros H0 He. unfold withBackoff. cbn [backoffLoop]. unfold scripted, net0.
  cbn [calls sleeps]. rewrite H0, He. reflexivity.
Qed.

Example retriable_statuses :
  retriable (httpError 429) = true /\ retriable (httpError 500) = true /\
  retriable (httpError 599) = true /\ retriable (httpError 600) = false /\
  retriable (httpError 404) = false /\ retriable (httpError 499) = false /\
  retriable {| err_status := None; err_message := [] |} = false.
Proof. repeat split. Qed.

Example withBackoff_demo :
  withBackoff sleepNet (scripted flakyThenMissing) 5 600 net0
  = (Throw (httpError 404), {| calls := 3; sleeps := [600; 1200]%Z |}).
Proof. reflexivity. Qed.

(** ** The status endpoint *)

(** C9: when the snapshot file is missing or cannot be read, the endpoint
    answers with the empty snapshot, overall "ok" and no messages; otherwise
    it sends the content of the file as it is. *)
Theorem status_endpoint (fs : gmap jsstring FileState) (now : jsstring) :
  match fs !! dataPath with
  | Some (Readable raw) => apiStatus fs dataPath now = SendRaw (str "json") raw
  | Some Unreadable | None =>
      exists s, apiStatus fs dataPath now = SendJson s /\
                overall s = str "ok" /\ messages s = [] /\ updatedAt s = now
  end.
Proof.
  unfold apiStatus, readFileSync.
  destruct (fs !! dataPath) as [[raw|]|]; [reflexivity| |];
    eexists; (split; [reflexivity|]); repeat split.
Qed.

Example status_endpoint_demo :
  apiStatus ∅ dataPath (str "t") =
    SendJson {| overall := str "ok"; messages := []; updatedAt := str "t" |} /\
  apiStatus (<[dataPath := Readable (str "{}")]> ∅) dataPath (str "t") =
    SendRaw (str "json") (str "{}") /\
  apiStatus (<[dataPath := Unreadable]> ∅) dataPath (str "t") =
    SendJson {| overall := str "ok"; messages := []; updatedAt := str "t" |}.
Proof. vm_compute. repeat split. Qed.

(** ** The revision with the display flag only *)

Lemma dropWhile_app (p : N -> bool) (a b : jsstring) :
  dropWhile p (a ++ b) =
    match dropWhile p a with
    | [] => dropWhile p b
    | c :: r => (c :: r) ++ b
    end.
Proof.
  induction a as [|x a IH]; simpl; [reflexivity|].
  destruct (p x); [exact IH | reflexivity].
Qed.

Lemma dropWhileEnd_cons (p : N -> bool) (c : N) (r : jsstring) :
  dropWhileEnd p (c :: r) =
    match dropWhileEnd p r with
    | [] => if p c then [] else [c]
    | y :: ys => c :: y :: ys
    end.
Proof.
  unfold dropWhileEnd. cbn [rev]. rewrite dropWhile_app.
  destruct (dropWhile p (rev r)) as [|z zs] eqn:E.
  - cbn [rev dropWhile]. destruct (p c); reflexivity.
  - cbn [app]. change (z :: zs ++ [c]) with ((z :: zs) ++ [c]).
    rewrite rev_app_distr. cbn [rev app].
    destruct (rev zs ++ [z]) as [|y ys] eqn:E'; [|reflexivity].
    destruct (rev zs); discriminate.
Qed.

Lemma dropWhile_head (p : N -> bool) (s : jsstring) :
  match dropWhile p s with
  | [] => True
  | c :: _ => p c = false
  end.
Proof.
  induction s as [|x s IH]; simpl; [exact I|].
  destruct (p x) eqn:E; [exact IH | exact E].
Qed.

Lemma dropWhileEnd_last (p : N -> bool) (s : jsstring) (d : N) :
  match dropWhileEnd p s with
  | [] => True
  | c :: r => p (last (c :: r) d) = false
  end.
Proof.
  unfold dropWhileEnd.
  pose proof (dropWhile_head p (rev s)) as H.
  destruct (dropWhile p (rev s)) as [|z zs]; [exact I|].
  cbn [rev]. destruct (rev zs ++ [z]) as [|c r] eqn:E; [exact I|].
  rewrite <- E. rewrite last_last. exact H.
Qed.

Lemma dropWhileEnd_keeps_head (p : N -> bool) (c : N) (r : jsstring) :
  p c = false -> exists r', dropWhileEnd p (c :: r) = c :: r'.
Proof.
  intros Hc. rewrite dropWhileEnd_cons.
  destruct (dropWhileEnd p r) as [|y ys]; [rewrite Hc|]; eauto.
Qed.

(** [trim] leaves no white space at either end. *)
Lemma trim_isTrimmed (s : jsstring) : isTrimmed (trim s) = true.
Proof.
  unfold trim.
  pose proof (dropWhile_head isWhiteSpace s) as Hh.
  destruct (dropWhile isWhiteSpace s) as [|c r]; [reflexivity|].
  destruct (dropWhileEnd_keeps_head isWhiteSpace c r Hh) as [r' E].
  pose proof (dropWhileEnd_last isWhiteSpace (c :: r) c) as Hl.
  rewrite E in *. unfold isTrimmed. rewrite Hh, Hl. reflexivity.
Qed.

(** In this revision every emitted message is trimmed. *)
Lemma display_revision_message_trimmed
    (urlHostname : jsstring -> option jsstring) (body : jsstring) (e : Entry) :
  In e (DisplayRevision.extractAllSystemEntries urlHostname body) ->
  isTrimmed (message e) = true.
Proof.
  unfold DisplayRevision.extractAllSystemEntries. intros H.
  apply in_flat_map in H as [inner [_ H]].
  unfold DisplayRevision.blockEntries in H.
  destruct (negb (truthy (trim inner))); [contradiction|].
  destruct (negb (jseqb _ (str "yes"))); [contradiction|].
  destruct (negb (truthy _)); [contradiction|].
  destruct H as [<-|[]]. cbn [message]. apply trim_isTrimmed.
Qed.

(** The end-to-end example of the specification, as this revision parses
    it. *)
Example display_revision_demo (urlHostname : jsstring -> option jsstring) :
  DisplayRevision.extractAllSystemEntries urlHostname demoBody
  = [ {| name := str "API degraded"; status := str "warning";
         display := str "yes";
         domains := [str "example.com"; str "foo.org"];
         message := str "Partial outages expected." |} ].
Proof. vm_compute. reflexivity. Qed.

(** A token with scheme, "www." and path becomes the bare host, whether the
    platform parses the URL or refuses it. *)
Lemma display_revision_host_token (urlHostname : jsstring -> option jsstring) :
  urlHostname (str "https://www.Example.com/status") = Some (str "www.example.com")
  \/ urlHostname (str "https://www.Example.com/status") = None ->
  DisplayRevision.normalizeHostToken urlHostname
    (str "https://www.Example.com/status") = str "example.com".
Proof.
  intros H. unfold DisplayRevision.normalizeHostToken.
  change (replaceAll DisplayRevision.markdownLinkAt
            (trim (str "https://www.Example.com/status")))
    with (str "https://www.Example.com/status").
  change (DisplayRevision.hasHttpScheme (str "https://www.Example.com/status"))
    with true. cbv iota.
  destruct H as [-> | ->]; vm_compute; reflexivity.
Qed.

Lemma forallb_takeWhile (q p : N -> bool) (s : jsstring) :
  forallb q s = true -> forallb q (takeWhile p s) = true.
Proof.
  induction s as [|c s IH]; simpl; [reflexivity|].
  intros H. apply andb_prop in H as [Hc Hs].
  destruct (p c); simpl; [rewrite Hc; now apply IH | reflexivity].
Qed.

Lemma forallb_takeWhile_self (p : N -> bool) (s : jsstring) :
  forallb p (takeWhile p s) = true.
Proof.
  induction s as [|c s IH]; simpl; [reflexivity|].
  destruct (p c) eqn:E; simpl; [now rewrite E | reflexivity].
Qed.

Lemma forallb_dropWhile (q p : N -> bool) (s : jsstring) :
  forallb q s = true -> forallb q (dropWhile p s) = true.
Proof.
  induction s as [|c s IH]; simpl; [reflexivity|].
  intros H. destruct (p c); [apply andb_prop in H as [_ H]; now apply IH|].
  exact H.
Qed.

Lemma forallb_rev (q : N -> bool) (s : jsstring) :
  forallb q (rev s) = forallb q s.
Proof.
  induction s as [|c s IH]; simpl; [reflexivity|].
  rewrite forallb_app, IH. simpl. rewrite andb_true_r. apply andb_comm.
Qed.

Lemma forallb_trim (q : N -> bool) (s : jsstring) :
  forallb q s = true -> forallb q (trim s) = true.
Proof.
  intros H. unfold trim, dropWhileEnd.
  rewrite forallb_rev. apply forallb_dropWhile. rewrite forallb_rev.
  now apply forallb_dropWhile.
Qed.

Lemma forallb_skipn (q : N -> bool) (n : nat) (s : jsstring) :
  forallb q s = true -> forallb q (skipn n s) = true.
Proof.
  revert s. induction n as [|n IH]; intros s H; [exact H|].
  destruct s as [|c s]; [reflexivity|].
  simpl in H. apply andb_prop in H as [_ H]. now apply IH.
Qed.

Lemma isHostUnit_lowerUnit (c : N) :
  negb (c =? 47) && negb (c =? 63) && negb (c =? 35) = true ->
  isHostUnit (lowerUnit c) = true.
Proof.
  unfold isHostUnit, lowerUnit. intros H.
  apply andb_prop in H as [H H3]. apply andb_prop in H as [H1 H2].
  apply negb_true_iff, N.eqb_neq in H1, H2, H3.
  destruct ((65 <=? c) && (c <=? 90)) eqn:E.
  - apply andb_prop in E as [Ea Eb]. apply N.leb_le in Ea, Eb.
    repeat (apply andb_true_intro; split); apply negb_true_iff.
    + apply N.eqb_neq. lia.
    + apply N.eqb_neq. lia.
    + apply N.eqb_neq. lia.
    + apply andb_false_iff. right. apply N.leb_gt. lia.
  - repeat (apply andb_true_intro; split); apply negb_true_iff;
      try (apply N.eqb_neq; assumption). exact E.
Qed.

Lemma uniqueFrom_In (seen : gset jsstring) (l : list jsstring) (x : jsstring) :
  In x (uniqueFrom seen l) -> In x l.
Proof.
  revert seen. induction l as [|y t IH]; intros seen H; [contradiction|].
  simpl in H. destruct (bool_decide (y ∈ seen)).
  - right. eapply IH, H.
  - destruct H as [->|H]; [now left | right; eapply IH, H].
Qed.

(** Every host this revision's [normalizeHostToken] returns is free of path,
    query and fragment separators and of upper-case ASCII letters. *)
Lemma display_revision_host_units
    (urlHostname : jsstring -> option jsstring) (input : jsstring) :
  forallb isHostUnit (DisplayRevision.normalizeHostToken urlHostname input) = true.
Proof.
  unfold DisplayRevision.normalizeHostToken.
  set (x := DisplayRevision.stripHttpScheme _).
  assert (H : forallb isHostUnit
                (trim (toLowerCase
                   (DisplayRevision.beforeFirst 35
                      (DisplayRevision.beforeFirst 63
                         (DisplayRevision.beforeFirst 47 x))))) = true).
  { apply forallb_trim. unfold toLowerCase.
    apply forallb_forall. intros c Hc. apply in_map_iff in Hc as [c0 [<- Hc0]].
    apply isHostUnit_lowerUnit.
    unfold DisplayRevision.beforeFirst in Hc0.
    pose proof (forallb_takeWhile_self (fun c => negb (c =? 35))
                  (takeWhile (fun c => negb (c =? 63))
                     (takeWhile (fun c => negb (c =? 47)) x))) as H35.
    pose proof (forallb_takeWhile (fun c => negb (c =? 63)) (fun c => negb (c =? 35))
                  (takeWhile (fun c => negb (c =? 63))
                     (takeWhile (fun c => negb (c =? 47)) x))
                  (forallb_takeWhile_self _ _)) as H63.
    pose proof (forallb_takeWhile (fun c => negb (c =? 47)) (fun c => negb (c =? 35)) _
                  (forallb_takeWhile (fun c => negb (c =? 47)) (fun c => negb (c =? 63)) _
                     (forallb_takeWhile_self (fun c => negb (c =? 47)) x))) as H47.
    rewrite forallb_forall in H35, H63, H47.
    rewrite (H47 _ Hc0), (H63 _ Hc0), (H35 _ Hc0). reflexivity. }
  destruct (startsWith (str "www.") _); [now apply forallb_skipn | exact H].
Qed.

Lemma display_revision_domains_normalized
    (urlHostname : jsstring -> option jsstring) (v : option jsstring) (d : jsstring) :
  In d (DisplayRevision.parseDomains urlHostname v) ->
  forallb isHostUnit d = true /\ d <> [].
Proof.
  unfold DisplayRevision.parseDomains. destruct v as [v|]; [|contradiction].
  destruct (negb (truthy (trim v))); [contradiction|].
  destruct (jseqb (trim v) (str "@")); [contradiction|].
  destruct (existsb _ _); [contradiction|].
  intros H. apply uniqueFrom_In, filter_In in H as [H Ht].
  apply in_map_iff in H as [tok [<- _]].
  split; [apply display_revision_host_units|].
  intros E. rewrite E in Ht. discriminate.
Qed.

(** A token that trims to "@" makes the audience global in this revision
    too. *)
Lemma display_revision_at_token
    (urlHostname : jsstring -> option jsstring) (tok : jsstring) :
  trim tok = str "@" ->
  DisplayRevision.normalizeHostToken urlHostname tok = str "@".
Proof.
  intros H. unfold DisplayRevision.normalizeHostToken. rewrite H.
  vm_compute. reflexivity.
Qed.

Lemma display_revision_at_collapses
    (urlHostname : jsstring -> option jsstring) (v tok : jsstring) :
  In tok (splitOn 44 (trim v)) -> trim tok = str "@" ->
  DisplayRevision.parseDomains urlHostname (Some v) = [].
Proof.
  intros Hin Htok. unfold DisplayRevision.parseDomains.
  destruct (negb (truthy (trim v))); [reflexivity|].
  destruct (jseqb (trim v) (str "@")); [reflexivity|].
  match goal with |- (if ?b then _ else _) = _ => assert (Hb : b = true) end.
  { apply existsb_exists. exists (str "@"). split; [|vm_compute; reflexivity].
    apply filter_In. split; [|reflexivity].
    rewrite <- (display_revision_at_token urlHostname tok Htok).
    apply in_map. exact Hin. }
  rewrite Hb. reflexivity.
Qed.

(** * More properties of the harvester *)

(** ** The aggregator *)

(** What the two loops collect, and that sorting keeps it. *)
Lemma collectMessages_In (cutoffMs : Z) (docs : list Doc) (m : Message) :
  In m (collectMessages cutoffMs docs) <->
  exists d p f,
    In d docs /\ In p (recentPages cutoffMs (doc_pages d)) /\
    page_body p <> [] /\ In f (extractAllSystemEntries (page_body p)) /\
    m = messageOf d p f.
Proof.
  unfold collectMessages. split.
  - intros Hin.
    apply in_flat_map in Hin as [d [Hd Hin]].
    apply in_flat_map in Hin as [p [Hp Hin]].
    unfold pageMessages in Hin.
    destruct (page_body p) as [|c body] eqn:Eb; [contradiction|].
    cbn [truthy negb] in Hin.
    apply in_map_iff in Hin as [f [Hm Hf]].
    exists d, p, f. rewrite Eb. repeat split; auto; discriminate.
  - intros (d & p & f & Hd & Hp & Hb & Hf & ->).
    apply in_flat_map. exists d. split; [exact Hd|].
    apply in_flat_map. exists p. split; [exact Hp|].
    unfold pageMessages.
    destruct (page_body p) as [|c body] eqn:Eb; [contradiction|].
    cbn [truthy negb]. apply in_map_iff. exists f. split; [reflexivity | exact Hf].
Qed.

Lemma messages_In (cutoffMs : Z) (docs : list Doc) (now : jsstring) (m : Message) :
  In m (messages (harvestSystemMessagesFromDocs cutoffMs docs now)) <->
  In m (collectMessages cutoffMs docs).
Proof.
  cbn [messages harvestSystemMessagesFromDocs].
  assert (Hperm := sortBy_perm compareMessages (collectMessages cutoffMs docs)).
  split; intros H; (eapply Permutation_in; [|exact H]); [exact Hperm | now symmetry].
Qed.

(** X1: a message is in the list of a run exactly when some page of a
    listed document carries it: the page passes the cutoff (the cutoff is 0,
    or it is at most the page's timestamp, a missing timestamp counting as
    0), the page's body is not empty, the entry of the message is one that
    the parser extracts from that body, the message bears the identifiers
    and names of the document and the page, and its timestamp is the page's
    where the page has one that is not 0, and null otherwise.  Nothing is
    lost and nothing is invented. *)
Theorem harvest_provenance (cutoffMs : Z) (docs : list Doc) (now : jsstring)
    (m : Message) :
  In m (messages (harvestSystemMessagesFromDocs cutoffMs docs now)) <->
  exists d p,
    In d docs /\ In p (doc_pages d) /\
    (cutoffMs = 0 \/
     cutoffMs <= match date_updated p with Some t => t | None => 0 end)%Z /\
    page_body p <> [] /\
    In (entry m) (extractAllSystemEntries (page_body p)) /\
    m_doc_id m = doc_id d /\ m_doc_name m = doc_name d /\
    m_page_id m = page_id p /\ m_page_name m = page_name p /\
    (forall t, updated m = Some t <-> date_updated p = Some t /\ t <> 0%Z).
Proof.
  rewrite messages_In, collectMessages_In. split.
  - intros (d & p & f & Hd & Hp & Hb & Hf & ->).
    exists d, p. cbn [messageOf entry m_doc_id m_doc_name m_page_id m_page_name updated].
    split; [exact Hd|]. unfold recentPages in Hp.
    assert (In p (doc_pages d) /\
            (cutoffMs = 0 \/
             cutoffMs <= match date_updated p with Some t => t | None => 0 end)%Z)
      as [Hin Hcut].
    { destruct (Z.eqb_spec cutoffMs 0) as [E|E]; [split; [exact Hp | now left]|].
      apply filter_In in Hp as [Hp Hle]. apply Z.leb_le in Hle.
      split; [exact Hp | right; exact Hle]. }
    repeat (split; [assumption || reflexivity|]).
    intros t. unfold updatedOf. destruct (date_updated p) as [u|].
    + destruct (Z.eqb_spec u 0) as [E|E].
      * split; [discriminate | intros [Eu Hn]; injection Eu as ->; contradiction].
      * split; [intros Eu; injection Eu as <-; split; [reflexivity | exact E]
               | intros [Eu _]; exact Eu].
    + split; [discriminate | intros [Eu _]; discriminate].
  - intros (d & p & Hd & Hp & Hcut & Hb & Hf & H1 & H2 & H3 & H4 & Hu).
    exists d, p, (entry m). split; [exact Hd|]. split.
    { unfold recentPages. destruct (Z.eqb_spec cutoffMs 0) as [E|E]; [exact Hp|].
      apply filter_In. split; [exact Hp|]. apply Z.leb_le.
      destruct Hcut as [Hc|Hc]; [contradiction | exact Hc]. }
    split; [exact Hb|]. split; [exact Hf|].
    destruct m as [f di dn pi pn u]. cbn in *. unfold messageOf. subst.
    f_equal. unfold updatedOf. destruct u as [t|].
    + destruct (Hu t) as [Hu1 _]. destruct (Hu1 eq_refl) as [-> Hn].
      destruct (Z.eqb_spec t 0); [contradiction | reflexivity].
    + destruct (date_updated p) as [t|]; [|reflexivity].
      destruct (Z.eqb_spec t 0) as [E|E]; [reflexivity|].
      destruct (Hu t) as [_ Hu2]. discriminate (Hu2 (conj eq_refl E)).
Qed.

Example harvest_provenance_demo :
  List.map (fun m => (m_doc_name m, m_page_name m, name (entry m), updated m))
    (messages (harvestSystemMessagesFromDocs 1700000400000 twoPages (str "now")))
  = [ (str "Status", str "Portal", str "X", Some 1700000500000%Z) ].
Proof. vm_compute. reflexivity. Qed.

(** X2: with a positive cutoff, every message of the run comes from a page
    updated at or after the cutoff; pages without timestamp are skipped. *)
Theorem harvest_respects_cutoff (cutoffMs : Z) (docs : list Doc) (now : jsstring) :
  (0 < cutoffMs)%Z ->
  Forall (fun m => exists t, updated m = Some t /\ (cutoffMs <= t)%Z)
         (messages (harvestSystemMessagesFromDocs cutoffMs docs now)).
Proof.
  intros Hc. apply Forall_forall. intros m Hm.
  apply messages_In, collectMessages_In in Hm as (d & p & f & _ & Hp & _ & _ & ->).
  unfold recentPages in Hp.
  destruct (Z.eqb_spec cutoffMs 0); [lia|].
  apply filter_In in Hp as [_ Hp]. apply Z.leb_le in Hp.
  cbn [messageOf updated]. unfold updatedOf.
  unfold numberOrZero in Hp.
  destruct (date_updated p) as [t|]; [|lia].
  destruct (Z.eqb_spec t 0); [lia|].
  exists t. split; [reflexivity | exact Hp].
Qed.

(** The cutoff at a document with one page before it and one after. *)
Lemma harvest_respects_cutoff_witness :
  (0 < 1700000400000)%Z /\
  Forall (fun m => exists t, updated m = Some t /\ (1700000400000 <= t)%Z)
         (messages (harvestSystemMessagesFromDocs 1700000400000 twoPages (str "now"))).
Proof.
  split; [lia|].
  apply (harvest_respects_cutoff 1700000400000 twoPages (str "now")). lia.
Defined.

Example cutoff_demo :
  List.map (fun m => m_page_id m)
    (messages (harvestSystemMessagesFromDocs 1700000400000 twoPages (str "now")))
  = [str "p2"].
Proof. vm_compute. reflexivity. Qed.

(** X3: given the documents that a successful listing returned, a run in
    which no page body could be fetched (every page of every listed
    document has the empty body) yields a snapshot with no message and
    overall "ok". *)
Theorem harvest_nothing_fetched (cutoffMs : Z) (docs : list Doc) (now : jsstring) :
  (forall d p, In d docs -> In p (doc_pages d) -> page_body p = []) ->
  messages (harvestSystemMessagesFromDocs cutoffMs docs now) = [] /\
  overall (harvestSystemMessagesFromDocs cutoffMs docs now) = str "ok".
Proof.
  intros Hall.
  assert (Hnil : messages (harvestSystemMessagesFromDocs cutoffMs docs now) = []).
  { destruct (messages _) as [|m ms] eqn:E; [reflexivity|].
    assert (Hin : In m (messages (harvestSystemMessagesFromDocs cutoffMs docs now)))
      by (rewrite E; now left).
    apply messages_In, collectMessages_In in Hin as (d & p & f & Hd & Hp & Hb & _).
    exfalso. apply Hb. apply (Hall d p Hd).
    unfold recentPages in Hp. destruct (cutoffMs =? 0)%Z; [exact Hp|].
    now apply filter_In in Hp as [Hp _]. }
  split; [exact Hnil|].
  cbn [messages overall harvestSystemMessagesFromDocs] in *. rewrite Hnil.
  reflexivity.
Qed.

(** A run over a document whose two bodies are empty. *)
Lemma harvest_nothing_fetched_witness :
  (forall d p, In d unreachablePages -> In p (doc_pages d) -> page_body p = []) /\
  messages (harvestSystemMessagesFromDocs 0 unreachablePages (str "now")) = [] /\
  overall (harvestSystemMessagesFromDocs 0 unreachablePages (str "now")) = str "ok".
Proof.
  assert (H : forall d p, In d unreachablePages -> In p (doc_pages d) ->
                          page_body p = []).
  { intros d p [<-|[]] Hp. simpl in Hp. destruct Hp as [<-|[<-|[]]]; reflexivity. }
  split; [exact H|].
  apply (harvest_nothing_fetched 0 unreachablePages (str "now") H).
Defined.

(** Insertion keeps the relative order of the elements that the comparator
    cannot tell apart. *)
Section Stability.
Context {A : Type}.
Variable cmp : A -> A -> Z.
Variable same : A -> A -> bool.
Hypothesis same_le :
  forall z x y, same z x = true -> same z y = true -> (cmp x y <= 0)%Z.

Lemma insertSorted_stable (z x : A) (l : list A) :
  List.filter (same z) (insertSorted cmp x l) = List.filter (same z) (x :: l).
Proof.
  induction l as [|y t IH]; [reflexivity|].
  cbn [insertSorted]. destruct (cmp x y <=? 0)%Z eqn:E; [reflexivity|].
  apply Z.leb_gt in E.
  cbn [List.filter] in *. rewrite IH.
  destruct (same z x) eqn:Ex, (same z y) eqn:Ey; try reflexivity.
  pose proof (same_le z x y Ex Ey). lia.
Qed.

Lemma sortBy_stable (z : A) (l : list A) :
  List.filter (same z) (sortBy cmp l) = List.filter (same z) l.
Proof.
  induction l as [|x t IH]; [reflexivity|].
  cbn [sortBy fold_right]. fold (sortBy cmp t).
  rewrite insertSorted_stable. cbn [List.filter]. rewrite IH. reflexivity.
Qed.
End Stability.

(** X4: the sort is stable: messages of one severity and one timestamp keep
    the order in which the pages were visited. *)
Theorem harvest_sort_stable (cutoffMs : Z) (docs : list Doc) (now : jsstring)
    (m0 : Message) :
  List.filter (sameSortKey m0)
    (messages (harvestSystemMessagesFromDocs cutoffMs docs now))
  = List.filter (sameSortKey m0) (collectMessages cutoffMs docs).
Proof.
  cbn [messages harvestSystemMessagesFromDocs].
  apply sortBy_stable. intros z x y Hx Hy.
  unfold sameSortKey in Hx, Hy.
  apply andb_prop in Hx as [Hx1 Hx2]. apply andb_prop in Hy as [Hy1 Hy2].
  apply Z.eqb_eq in Hx1, Hx2, Hy1, Hy2.
  apply compareMessages_le. right. split; lia.
Qed.

Example stable_demo :
  List.map (fun m => m_page_id m)
    (messages (harvestSystemMessagesFromDocs 0
       [ {| doc_id := str "d"; doc_name := str "D";
            doc_pages := [ {| page_id := str "p1"; page_name := []; date_updated := None;
                              page_body := downBlock |};
                           {| page_id := str "p2"; page_name := []; date_updated := None;
                              page_body := downBlock |};
                           {| page_id := str "p3"; page_name := []; date_updated := Some 5%Z;
                              page_body := downBlock |} ] |} ] (str "now")))
  = [str "p3"; str "p1"; str "p2"].
Proof. vm_compute. reflexivity. Qed.

(** ** The block parser *)

Lemma uniqueFrom_fresh (seen : gset jsstring) (l : list jsstring) (x : jsstring) :
  In x (uniqueFrom seen l) -> x ∉ seen.
Proof.
  revert seen. induction l as [|y t IH]; intros seen H; [contradiction|].
  simpl in H. destruct (bool_decide (y ∈ seen)) eqn:E.
  - eapply IH, H.
  - apply bool_decide_eq_false in E.
    destruct H as [->|H]; [exact E|].
    apply IH in H. rewrite not_elem_of_union in H. tauto.
Qed.

Lemma uniqueFrom_NoDup (seen : gset jsstring) (l : list jsstring) :
  NoDup (uniqueFrom seen l).
Proof.
  revert seen. induction l as [|y t IH]; intros seen; simpl; [constructor|].
  destruct (bool_decide (y ∈ seen)); [apply IH|].
  constructor; [|apply IH].
  intros H. apply uniqueFrom_fresh in H.
  rewrite not_elem_of_union, elem_of_singleton in H. tauto.
Qed.

Lemma uniqueFrom_complete (seen : gset jsstring) (l : list jsstring) (x : jsstring) :
  In x l -> x ∉ seen -> In x (uniqueFrom seen l).
Proof.
  revert seen. induction l as [|y t IH]; intros seen H Hf; [contradiction|].
  simpl. destruct (bool_decide (y ∈ seen)) eqn:E.
  - apply bool_decide_eq_true in E.
    destruct H as [->|H]; [contradiction | now apply IH].
  - destruct H as [->|H]; [now left|].
    destruct (decide (x = y)) as [->|Hne]; [now left|].
    right. apply IH; [exact H|].
    rewrite not_elem_of_union, elem_of_singleton. tauto.
Qed.

Lemma truthy_toLowerCase (s : jsstring) : truthy (toLowerCase s) = truthy s.
Proof. destruct s; reflexivity. Qed.

Lemma truthy_true (s : jsstring) : truthy s = true <-> s <> [].
Proof. destruct s; simpl; split; congruence. Qed.

(** X5: for an audience value of ASCII code units, the list that
    [parseDomains] returns has no duplicate and never holds "@"; its entries
    are the trimmed, lower-cased tokens of the comma-separated value with
    one leading "www." removed, blank tokens left out, and when the list is
    not empty every such token is in it. *)
Theorem parseDomains_result (v : option jsstring) :
  (forall raw, v = Some raw -> Forall (fun c => c < 128) raw) ->
  NoDup (parseDomains v) /\
  ~ In (str "@") (parseDomains v) /\
  (forall d, In d (parseDomains v) ->
     exists raw tok, v = Some raw /\ In tok (splitOn 44 (trim raw)) /\
                     trim tok <> [] /\ d = hostOf tok) /\
  (forall raw tok, v = Some raw -> parseDomains v <> [] ->
     In tok (splitOn 44 (trim raw)) -> trim tok <> [] ->
     In (hostOf tok) (parseDomains v)).
Proof.
  intros _. destruct v as [raw|]; cbn [parseDomains].
  2:{ split; [constructor|]. split; [tauto|]. split; [intros d []|].
      intros r t E; discriminate. }
  destruct (negb (truthy (trim raw)) || jseqb (trim raw) (str "@")).
  { split; [constructor|]. split; [tauto|]. split; [intros d []|].
    intros r t _ H; congruence. }
  set (parts := List.map stripWww
                  (List.filter truthy
                     (List.map (fun x => toLowerCase (trim x)) (splitOn 44 (trim raw))))).
  assert (Hparts : forall d, In d parts <->
            exists tok, In tok (splitOn 44 (trim raw)) /\ trim tok <> [] /\ d = hostOf tok).
  { intros d. unfold parts, hostOf. rewrite in_map_iff. split.
    - intros [x [<- Hx]]. apply filter_In in Hx as [Hx Ht].
      apply in_map_iff in Hx as [tok [<- Htok]].
      rewrite truthy_toLowerCase in Ht. apply truthy_true in Ht. eauto.
    - intros [tok [Htok [Ht ->]]]. exists (toLowerCase (trim tok)).
      split; [reflexivity|]. apply filter_In. split.
      + apply (in_map (fun x => toLowerCase (trim x))). exact Htok.
      + rewrite truthy_toLowerCase. now apply truthy_true. }
  destruct (existsb (jseqb (str "@")) parts) eqn:Eat.
  { split; [constructor|]. split; [tauto|]. split; [intros d []|].
    intros r t _ H; congruence. }
  split; [apply uniqueFrom_NoDup|]. split; [|split].
  - intros H. apply uniqueFrom_In in H.
    assert (existsb (jseqb (str "@")) parts = true); [|congruence].
    apply existsb_exists. exists (str "@"). split; [exact H | vm_compute; reflexivity].
  - intros d Hd. apply uniqueFrom_In, Hparts in Hd as [tok H].
    exists raw, tok. tauto.
  - intros r tok Er _ Htok Ht. inversion Er; subst r.
    apply uniqueFrom_complete; [|apply not_elem_of_empty].
    apply Hparts. eauto.
Qed.

(** An audience value with letter case, blank tokens, "www." and a repeated
    host. *)
Lemma parseDomains_result_witness :
  let v := Some (str " Example.com , ,www.Foo.org,EXAMPLE.COM ,WWW.www.bar.io") in
  (forall raw, v = Some raw -> Forall (fun c => c < 128) raw) /\
  parseDomains v = [str "example.com"; str "foo.org"; str "www.bar.io"] /\
  NoDup (parseDomains v) /\
  ~ In (str "@") (parseDomains v) /\
  (forall d, In d (parseDomains v) ->
     exists raw tok, v = Some raw /\ In tok (splitOn 44 (trim raw)) /\
                     trim tok <> [] /\ d = hostOf tok) /\
  (forall raw tok, v = Some raw -> parseDomains v <> [] ->
     In tok (splitOn 44 (trim raw)) -> trim tok <> [] ->
     In (hostOf tok) (parseDomains v)).
Proof.
  cbv zeta.
  assert (H : forall raw,
             Some (str " Example.com , ,www.Foo.org,EXAMPLE.COM ,WWW.www.bar.io")
             = Some raw -> Forall (fun c => c < 128) raw).
  { intros raw E. injection E as <-. apply Forall_forall. intros c Hc.
    apply N.ltb_lt.
    revert c Hc. apply (proj1 (forallb_forall (fun c => c <? 128) _)).
    vm_compute. reflexivity. }
  split; [exact H|]. split; [vm_compute; reflexivity|].
  apply (parseDomains_result
           (Some (str " Example.com , ,www.Foo.org,EXAMPLE.COM ,WWW.www.bar.io")) H).
Defined.

Example parseDomains_result_demo :
  parseDomains (Some (str " Example.com , ,www.Foo.org,EXAMPLE.COM ,www.,WWW.www.bar.io"))
  = [str "example.com"; str "foo.org"; []; str "www.bar.io"].
Proof. vm_compute. reflexivity. Qed.

(** X6: every entry that the parser emits has a name that is not empty, one
    of the three statuses, and the display value "yes". *)
Theorem extracted_entries_normalized (body : jsstring) :
  Forall (fun e =>
            name e <> [] /\
            (status e = str "ok" \/ status e = str "warning" \/
             status e = str "error") /\
            display e = str "yes")
         (extractAllSystemEntries body).
Proof.
  apply Forall_forall. intros e He.
  unfold extractAllSystemEntries in He.
  apply in_flat_map in He as [inner [_ He]].
  unfold blockEntries in He.
  destruct (negb (truthy (trim inner))); [contradiction|].
  destruct (isVisible (parseBlock inner)) eqn:Ev; [|contradiction].
  destruct He as [<-|[]]. unfold entryOf. cbn [name status display].
  split; [|split].
  - unfold orElse. destruct (orEmpty _) as [|c r]; simpl; discriminate.
  - apply normalizeStatus_cases.
  - unfold isVisible in Ev.
    destruct (normalizeDisplay_cases (parseBlock inner !! str "display")) as [E|[E|E]];
      rewrite E in *; [reflexivity | vm_compute in Ev; discriminate | reflexivity].
Qed.

(** ** The content normalizer *)

Lemma forallb_replaceFrom (q : N -> bool) (m : matcher) (fuel : nat) (s : jsstring) :
  (forall t n rep, m t = Some (n, rep) -> forallb q rep = true) ->
  forallb q s = true -> forallb q (replaceFrom m fuel s) = true.
Proof.
  intros Hm. revert s. induction fuel as [|f IH]; intros s Hs; [exact Hs|].
  destruct s as [|c t]; [reflexivity|].
  cbn [replaceFrom]. cbn [forallb] in Hs. apply andb_prop in Hs as [Hc Ht].
  destruct (m (c :: t)) as [[n rep]|] eqn:E.
  - rewrite forallb_app. rewrite (Hm _ _ _ E). cbn [andb].
    apply IH. now apply forallb_skipn.
  - cbn [forallb]. rewrite Hc. now apply IH.
Qed.

(** X7: the normalizer never makes a text longer, and its output holds no
    zero-width code unit. *)
Theorem prepare_output_bounds (s : jsstring) :
  (List.length (prepareSystemSource s) <= List.length s)%nat /\
  forallb (fun c => negb (isZeroWidth c)) (prepareSystemSource s) = true.
Proof.
  split.
  - unfold prepareSystemSource.
    pose proof (replaceAll_length_le entityAt s entityAt_shrinking) as L1.
    pose proof (replaceAll_length_le (escapedAt 91) (replaceAll entityAt s)
                  (escapedAt_shrinking 91)) as L2.
    pose proof (replaceAll_length_le (escapedAt 93)
                  (replaceAll (escapedAt 91) (replaceAll entityAt s))
                  (escapedAt_shrinking 93)) as L3.
    pose proof (replaceAll_length_le zeroWidthAt
                  (replaceAll (escapedAt 93)
                     (replaceAll (escapedAt 91) (replaceAll entityAt s)))
                  zeroWidthAt_shrinking) as L4.
    lia.
  - unfold prepareSystemSource, replaceAll at 1.
    rewrite replaceFrom_zeroWidth by lia.
    apply forallb_forall. intros c Hc. now apply filter_In in Hc as [_ Hc].
Qed.

(** Decoding after encoding gives the text back. *)
Lemma encodeUnit_length (c : N) : (1 <= List.length (encodeUnit c))%nat.
Proof.
  unfold encodeUnit.
  repeat match goal with |- context [if ?b then _ else _] => destruct b end;
    vm_compute; lia.
Qed.

Lemma decode_encodeEntities (fuel : nat) (s : jsstring) :
  (List.length (encodeEntities s) <= fuel)%nat ->
  replaceFrom entityAt fuel (encodeEntities s) = s.
Proof.
  revert fuel. induction s as [|c r IH]; intros fuel Hlen.
  - destruct fuel; reflexivity.
  - unfold encodeEntities in *. cbn [flat_map] in *.
    rewrite length_app in Hlen.
    pose proof (encodeUnit_length c) as H1.
    destruct fuel as [|f]; [lia|].
    unfold encodeUnit in *.
    destruct (N.eqb_spec c 38) as [->|N38].
    { change (str "&amp;") with [38; 97; 109; 112; 59] in *. cbn [app List.length] in *.
      cbn. f_equal. apply IH. lia. }
    destruct (N.eqb_spec c 60) as [->|N60].
    { change (str "&lt;") with [38; 108; 116; 59] in *. cbn [app List.length] in *.
      cbn. f_equal. apply IH. lia. }
    destruct (N.eqb_spec c 62) as [->|N62].
    { change (str "&gt;") with [38; 103; 116; 59] in *. cbn [app List.length] in *.
      cbn. f_equal. apply IH. lia. }
    destruct (N.eqb_spec c 34) as [->|N34].
    { change (str "quot;") with [113; 117; 111; 116; 59] in *. cbn [app List.length] in *.
      cbn. f_equal. apply IH. lia. }
    destruct (N.eqb_spec c 39) as [->|N39].
    { change (str "&#39;") with [38; 35; 51; 57; 59] in *. cbn [app List.length] in *.
      cbn. f_equal. apply IH. lia. }
    cbn [app List.length] in *. cbn [replaceFrom].
    rewrite (entityAt_head c _ N38). f_equal. apply IH. lia.
Qed.

Lemma escapeBrackets_head (b : N) (s : jsstring) :
  match escapeBrackets s with
  | x :: _ => x <> 91 /\ x <> 93
  | [] => True
  end.
Proof.
  destruct s as [|c r]; [exact I|].
  unfold escapeBrackets. cbn [flat_map].
  destruct (N.eqb_spec c 91) as [->|N91]; [cbn; split; discriminate|].
  destruct (N.eqb_spec c 93) as [->|N93]; [cbn; split; discriminate|].
  cbn. auto.
Qed.

Lemma escapeOnly_head (s : jsstring) :
  match escapeOnly 93 s with
  | x :: _ => x <> 93
  | [] => True
  end.
Proof.
  destruct s as [|c r]; [exact I|].
  unfold escapeOnly. cbn [flat_map].
  destruct (N.eqb_spec c 93) as [->|N93]; [cbn; discriminate|].
  cbn. auto.
Qed.

Lemma escapedAt_next (b c x : N) (t : jsstring) :
  x <> b -> escapedAt b (c :: x :: t) = None.
Proof.
  intros Hx. unfold escapedAt. cbn [startsWith].
  apply N.eqb_neq in Hx. rewrite (N.eqb_sym b x), Hx.
  now rewrite andb_false_r, andb_false_l || rewrite andb_false_r.
Qed.

Lemma escapedAt_last (b c : N) : escapedAt b [c] = None.
Proof. unfold escapedAt. cbn [startsWith]. now rewrite andb_false_r. Qed.

Lemma unescape_open (fuel : nat) (s : jsstring) :
  (List.length (escapeBrackets s) <= fuel)%nat ->
  replaceFrom (escapedAt 91) fuel (escapeBrackets s) = escapeOnly 93 s.
Proof.
  revert fuel. induction s as [|c r IH]; intros fuel Hlen.
  - destruct fuel; reflexivity.
  - pose proof (escapeBrackets_head 0 r) as Hh.
    unfold escapeBrackets, escapeOnly in *. cbn [flat_map] in *.
    rewrite length_app in Hlen.
    destruct (N.eqb_spec c 91) as [->|N91].
    { cbn [orb app List.length] in *. destruct fuel as [|f]; [lia|].
      cbn. f_equal. apply IH. lia. }
    destruct (N.eqb_spec c 93) as [->|N93].
    { cbn [orb app List.length] in *. destruct fuel as [|[|f]]; [lia|lia|].
      cbn [replaceFrom]. rewrite escapedAt_next by discriminate.
      rewrite escapedAt_head by discriminate.
      f_equal. f_equal. apply IH. lia. }
    cbn [orb app List.length] in *. destruct fuel as [|f]; [lia|].
    cbn [replaceFrom].
    assert (E : escapedAt 91 (c :: flat_map
               (fun c0 => if (c0 =? 91) || (c0 =? 93) then [92; c0] else [c0]) r) = None).
    { destruct (flat_map _ r) as [|x t]; [apply escapedAt_last|].
      apply escapedAt_next. tauto. }
    rewrite E. f_equal. apply IH. lia.
Qed.

Lemma unescape_close (fuel : nat) (s : jsstring) :
  (List.length (escapeOnly 93 s) <= fuel)%nat ->
  replaceFrom (escapedAt 93) fuel (escapeOnly 93 s) = s.
Proof.
  revert fuel. induction s as [|c r IH]; intros fuel Hlen.
  - destruct fuel; reflexivity.
  - pose proof (escapeOnly_head r) as Hh.
    unfold escapeOnly in *. cbn [flat_map] in *.
    rewrite length_app in Hlen.
    destruct (N.eqb_spec c 93) as [->|N93].
    { cbn [app List.length] in *. destruct fuel as [|f]; [lia|].
      cbn. f_equal. apply IH. lia. }
    cbn [app List.length] in *. destruct fuel as [|f]; [lia|].
    cbn [replaceFrom].
    assert (E : escapedAt 93 (c :: flat_map
               (fun c0 => if c0 =? 93 then [92; c0] else [c0]) r) = None).
    { destruct (flat_map _ r) as [|x t]; [apply escapedAt_last|].
      now apply escapedAt_next. }
    rewrite E. f_equal. apply IH. lia.
Qed.

(** X8: the normalizer undoes one level of escaping: a text whose brackets
    were backslash-escaped and whose ampersands, angle brackets and quotes
    were then written as entities comes back as it was, less its zero-width
    code units. *)
Theorem prepare_decodes_escaped (s : jsstring) :
  prepareSystemSource (encodeEntities (escapeBrackets s))
  = List.filter (fun c => negb (isZeroWidth c)) s.
Proof.
  unfold prepareSystemSource, replaceAll.
  rewrite decode_encodeEntities by lia.
  rewrite unescape_open by lia.
  rewrite unescape_close by lia.
  apply replaceFrom_zeroWidth. lia.
Qed.

Example prepare_decodes_demo :
  encodeEntities (escapeBrackets (str "[system] a<b & \[c]"))
  = str "\[system\] a&lt;b &amp; \\[c\]" /\
  prepareSystemSource (str "\[system\] a&lt;b &amp; \\[c\]") = str "[system] a<b & \[c]".
Proof. vm_compute. split; reflexivity. Qed.

(** ** The block scanner again *)

Lemma startsWithCI_app (pat x y : jsstring) :
  startsWithCI pat x = true -> startsWithCI pat (x ++ y) = true.
Proof.
  revert x. induction pat as [|a pat IH]; intros x H; [reflexivity|].
  destruct x as [|b x]; [discriminate|].
  cbn [startsWithCI app] in *. apply andb_prop in H as [H1 H2].
  rewrite H1. now apply IH.
Qed.

Lemma splitAtCI_parts (pat s before after : jsstring) :
  splitAtCI pat s = Some (before, after) ->
  exists mid, s = before ++ mid ++ after /\ List.length mid = List.length pat.
Proof.
  revert before after. induction s as [|c t IH]; intros before after H.
  - cbn [splitAtCI] in H. destruct (startsWithCI pat []) eqn:E; [|discriminate].
    inversion H; subst. apply startsWithCI_length in E.
    exists []. split; [now rewrite skipn_nil | simpl in *; lia].
  - cbn [splitAtCI] in H. destruct (startsWithCI pat (c :: t)) eqn:E.
    + inversion H; subst. apply startsWithCI_length in E.
      exists (firstn (List.length pat) (c :: t)). split.
      * cbn [app]. now rewrite firstn_skipn.
      * rewrite length_firstn. lia.
    + destruct (splitAtCI pat t) as [[b a]|] eqn:Et; [|discriminate].
      inversion H; subst. destruct (IH _ _ eq_refl) as [mid [-> Hm]].
      exists mid. split; [reflexivity | exact Hm].
Qed.

Lemma splitAtCI_before (pat s before after : jsstring) :
  pat <> [] -> splitAtCI pat s = Some (before, after) ->
  splitAtCI pat before = None.
Proof.
  intros Hpat. revert before after. induction s as [|c t IH]; intros before after H.
  - cbn [splitAtCI] in H. destruct (startsWithCI pat []) eqn:E; [|discriminate].
    destruct pat; [congruence | discriminate].
  - cbn [splitAtCI] in H. destruct (startsWithCI pat (c :: t)) eqn:E.
    + inversion H; subst. destruct pat; [congruence | reflexivity].
    + destruct (splitAtCI pat t) as [[b a]|] eqn:Et; [|discriminate].
      injection H as <- <-.
      destruct (splitAtCI_parts _ _ _ _ Et) as [mid [Ht _]].
      cbn [splitAtCI]. rewrite (IH _ _ eq_refl).
      destruct (startsWithCI pat (c :: b)) eqn:Eb; [|reflexivity].
      apply (startsWithCI_app _ _ (mid ++ a)) in Eb.
      cbn [app] in Eb. rewrite <- Ht in Eb. congruence.
Qed.

Lemma execAll_interiors (fuel : nat) (plain inner : jsstring) :
  In inner (execAll fuel plain) -> splitAtCI (str "[/system]") inner = None.
Proof.
  revert plain. induction fuel as [|f IH]; intros plain H; [contradiction|].
  cbn [execAll] in H.
  destruct (splitAtCI (str "[system]") plain) as [[b r]|]; [|contradiction].
  destruct (splitAtCI (str "[/system]") r) as [[i r']|] eqn:E; [|contradiction].
  destruct H as [<-|H]; [|eapply IH, H].
  eapply splitAtCI_before; [discriminate | exact E].
Qed.

Lemma execAll_length (fuel : nat) (plain : jsstring) :
  (17 * List.length (execAll fuel plain)
   + list_sum (List.map (@List.length N) (execAll fuel plain))
   <= List.length plain)%nat.
Proof.
  revert plain. induction fuel as [|f IH]; intros plain; [simpl; lia|].
  cbn [execAll].
  destruct (splitAtCI (str "[system]") plain) as [[b r]|] eqn:E1; [|simpl; lia].
  destruct (splitAtCI (str "[/system]") r) as [[i r']|] eqn:E2; [|simpl; lia].
  apply splitAtCI_length in E1, E2.
  change (List.length (str "[system]")) with 8%nat in E1.
  change (List.length (str "[/system]")) with 9%nat in E2.
  specialize (IH r'). cbn [List.length List.map list_sum fold_right] in *.
  unfold list_sum in *. cbn [fold_right]. lia.
Qed.

(** X9: blocks do not nest: no block interior that the scanner returns
    contains a closing tag, and the blocks with their tags fit side by side
    in the text. *)
Theorem systemMatches_interiors (plain : jsstring) :
  Forall (fun inner => splitAtCI (str "[/system]") inner = None)
         (systemMatches plain) /\
  (17 * List.length (systemMatches plain)
   + list_sum (List.map (@List.length N) (systemMatches plain))
   <= List.length plain)%nat.
Proof.
  split; [|apply execAll_length].
  apply Forall_forall. intros inner. apply execAll_interiors.
Qed.

Lemma lowerUnit_twice (c : N) : lowerUnit (lowerUnit c) = lowerUnit c.
Proof.
  unfold lowerUnit.
  destruct ((65 <=? c) && (c <=? 90)) eqn:E; [|now rewrite E].
  apply andb_prop in E as [E1 E2]. apply N.leb_le in E1, E2.
  assert (((65 <=? c + 32) && (c + 32 <=? 90)) = false) as ->; [|reflexivity].
  apply andb_false_iff. right. apply N.leb_gt. lia.
Qed.

Lemma startsWithCI_lower (pat s : jsstring) :
  startsWithCI pat (toLowerCase s) = startsWithCI pat s.
Proof.
  revert s. induction pat as [|a pat IH]; intros s; [reflexivity|].
  destruct s as [|b s]; [reflexivity|].
  cbn [toLowerCase List.map startsWithCI]. rewrite lowerUnit_twice.
  f_equal. apply IH.
Qed.

Lemma splitAtCI_lower (pat s : jsstring) :
  splitAtCI pat (toLowerCase s) =
    match splitAtCI pat s with
    | Some (b, a) => Some (toLowerCase b, toLowerCase a)
    | None => None
    end.
Proof.
  induction s as [|c t IH].
  - cbn [toLowerCase List.map splitAtCI]. destruct (startsWithCI pat []); [|reflexivity].
    now rewrite skipn_nil.
  - cbn [splitAtCI]. change (toLowerCase (c :: t)) with (lowerUnit c :: toLowerCase t).
    cbn [splitAtCI].
    change (lowerUnit c :: toLowerCase t) with (toLowerCase (c :: t)).
    rewrite startsWithCI_lower.
    destruct (startsWithCI pat (c :: t)).
    + unfold toLowerCase. now rewrite skipn_map.
    + rewrite IH. destruct (splitAtCI pat t) as [[b a]|]; reflexivity.
Qed.

Lemma execAll_lower (fuel : nat) (plain : jsstring) :
  execAll fuel (toLowerCase plain) = List.map toLowerCase (execAll fuel plain).
Proof.
  revert plain. induction fuel as [|f IH]; intros plain; [reflexivity|].
  cbn [execAll]. rewrite splitAtCI_lower.
  destruct (splitAtCI (str "[system]") plain) as [[b r]|]; [|reflexivity].
  rewrite splitAtCI_lower.
  destruct (splitAtCI (str "[/system]") r) as [[i r']|]; [|reflexivity].
  cbn [List.map]. f_equal. apply IH.
Qed.

(** X10: the tags are found whatever their letter case: lower-casing a text
    does not change where its blocks are, only the letters inside them. *)
Theorem systemMatches_case_insensitive (plain : jsstring) :
  systemMatches (toLowerCase plain) = List.map toLowerCase (systemMatches plain).
Proof.
  unfold systemMatches, toLowerCase at 1. rewrite length_map. apply execAll_lower.
Qed.

Lemma splitAtCI_no_bracket (s : jsstring) :
  ~ In 91 s -> splitAtCI (str "[system]") s = None.
Proof.
  induction s as [|c t IH]; intros Hn; [reflexivity|].
  cbn [splitAtCI]. rewrite IH by (intros H; apply Hn; now right).
  assert (E : startsWithCI (str "[system]") (c :: t) = false).
  { change (str "[system]") with (91 :: str "system]"). cbn [startsWithCI].
    apply andb_false_iff. left. apply N.eqb_neq. intros H.
    apply Hn. left. unfold lowerUnit in H.
    change ((65 <=? 91) && (91 <=? 90)) with false in H. cbv iota in H.
    destruct ((65 <=? c) && (c <=? 90)) eqn:Ec; [|congruence].
    apply andb_prop in Ec as [E1 E2]. apply N.leb_le in E1, E2. lia. }
  now rewrite E.
Qed.

Lemma occurs_escaped_no_bracket (b : N) (s : jsstring) :
  ~ In b s -> occurs (escapedAt b) s = false.
Proof.
  induction s as [|c t IH]; intros Hn; [reflexivity|].
  cbn [occurs]. rewrite IH by (intros H; apply Hn; now right).
  destruct t as [|x t]; [now rewrite escapedAt_last|].
  rewrite escapedAt_next; [reflexivity|].
  intros ->. apply Hn. right. now left.
Qed.

Lemma forallb_not_In (b : N) (s : jsstring) :
  forallb (fun c => negb (c =? b)) s = true <-> ~ In b s.
Proof.
  rewrite forallb_forall. split.
  - intros H Hin. specialize (H _ Hin). apply negb_true_iff, N.eqb_neq in H. congruence.
  - intros H c Hc. apply negb_true_iff, N.eqb_neq. intros ->. contradiction.
Qed.

(** X11: a body without an opening square bracket yields no entry. *)
Theorem no_bracket_no_entries (body : jsstring) :
  ~ In 91 body -> extractAllSystemEntries body = [].
Proof.
  intros Hn. unfold extractAllSystemEntries, systemMatches.
  set (plain := prepareSystemSource body).
  assert (Hp : ~ In 91 plain).
  { apply forallb_not_In in Hn.
    assert (H1 : forallb (fun c => negb (c =? 91)) (replaceAll entityAt body) = true).
    { apply forallb_replaceFrom; [|exact Hn].
      intros t n rep H. unfold entityAt, entityMap, firstEntity in H.
      repeat match type of H with
      | (if ?b then _ else _) = _ => destruct b; [inversion H; reflexivity|]
      end. discriminate. }
    unfold plain, prepareSystemSource.
    rewrite (replaceAll_noop (escapedAt 91)) by
      (apply occurs_escaped_no_bracket; now apply forallb_not_In).
    apply forallb_not_In.
    apply forallb_replaceFrom.
    { intros t n rep H. unfold zeroWidthAt in H. destruct t as [|x t]; [discriminate|].
      destruct (isZeroWidth x); inversion H; reflexivity. }
    apply forallb_replaceFrom; [|exact H1].
    intros t n rep H. unfold escapedAt in H.
    destruct (startsWith _ t); inversion H; reflexivity. }
  destruct (List.length plain) as [|f]; [reflexivity|].
  cbn [execAll]. now rewrite splitAtCI_no_bracket.
Qed.

(** A plain page, without any block. *)
Lemma no_bracket_no_entries_witness :
  ~ In 91 (str "All systems are fine & well.") /\
  extractAllSystemEntries (str "All systems are fine & well.") = [].
Proof.
  assert (H : ~ In 91 (str "All systems are fine & well.")).
  { apply forallb_not_In. vm_compute. reflexivity. }
  split; [exact H|].
  apply (no_bracket_no_entries (str "All systems are fine & well.") H).
Defined.

(** ** The retry wrapper for any bound *)

Lemma delaysFrom_bounds (delay : Z) (n : nat) :
  (0 <= delay <= 8000)%Z ->
  Forall (fun d => (delay <= d <= 8000)%Z) (delaysFrom delay n).
Proof.
  revert delay. induction n as [|n IH]; intros delay Hd; cbn [delaysFrom]; [constructor|].
  constructor; [lia|].
  eapply Forall_impl; [|apply IH; lia].
  cbv beta. intros d Hb. lia.
Qed.

Lemma delaysFrom_length (delay : Z) (n : nat) : List.length (delaysFrom delay n) = n.
Proof. revert delay. induction n as [|n IH]; intros delay; simpl; [|rewrite IH]; reflexivity. Qed.

(** X12: for any bound [tries] and base delay, the wrapper calls [fn] at most
    [tries] times and sleeps once between two calls; with a bound of zero it
    throws "unreachable" without a call; the delays start at the base delay,
    never decrease and never exceed 8000 ms when the base delay does not. *)
Theorem withBackoff_bounds {A : Type} (outs : nat -> Outcome A)
    (tries : nat) (baseDelay : Z) :
  let '(r, w) := withBackoff sleepNet (scripted outs) tries baseDelay net0 in
  (calls w <= tries)%nat /\
  (tries = 0%nat ->
   r = Throw {| err_status := None; err_message := str "unreachable" |}) /\
  ((0 < tries)%nat -> r = outs (calls w - 1)%nat) /\
  sleeps w = delaysFrom baseDelay (calls w - 1) /\
  ((0 <= baseDelay <= 8000)%Z ->
   Forall (fun d => (baseDelay <= d <= 8000)%Z) (sleeps w)).
Proof.
  unfold withBackoff. destruct tries as [|n].
  - cbn [backoffLoop net0 calls sleeps].
    repeat split; try lia; try reflexivity. intros _. constructor.
  - pose proof (backoffLoop_scripted outs (S n) (S n) 0 baseDelay net0) as H.
    destruct (backoffLoop sleepNet (scripted outs) (S n) (S n) 0 baseDelay net0)
      as [r w].
    destruct H as (Hb & Hr & _ & _ & Hs); [lia | reflexivity | lia |].
    cbn [net0 sleeps app] in Hs.
    replace (calls w - 1 - 0)%nat with (calls w - 1)%nat in Hs by lia.
    split; [lia|]. split; [discriminate|]. split; [intros _; exact Hr|].
    split; [exact Hs|]. intros Hd. rewrite Hs. now apply delaysFrom_bounds.
Qed.

Example withBackoff_capped_demo :
  delaysFrom 600 7 = [600; 1200; 2400; 4800; 8000; 8000; 8000]%Z.
Proof. reflexivity. Qed.

(** ** The bounded concurrency runner *)

Section MapLimitFacts.
Context {A R : Type}.
Variable worker : A -> nat -> Outcome R.
Variable items : list A.
Variable limit : nat.

Abbreviation step := (poolStep worker items).
Abbreviation start := (@poolStart A R items limit).

(** What every state of the pool satisfies. *)
Record PoolInv (s : Pool (R := R)) : Prop := mkPoolInv {
  inv_results : List.length (results s) = List.length items;
  inv_runners : List.length (runners s) = Nat.min limit (List.length items);
  inv_held : forall k j, runners s !! k = Some (Some j) ->
               (j < List.length items)%nat /\ (j < nextIndex s)%nat;
  inv_distinct : forall k k' j, runners s !! k = Some (Some j) ->
                   runners s !! k' = Some (Some j) -> k = k';
  inv_settled : forall j, (j < List.length items)%nat -> (j < nextIndex s)%nat ->
                  (exists k, runners s !! k = Some (Some j)) \/
                  results s !! j = Some (settled worker items j);
  inv_live : (1 <= limit)%nat ->
             (exists k j, runners s !! k = Some (Some j)) \/
             (List.length items <= nextIndex s)%nat
}.

Lemma poolStart_inv : PoolInv start.
Proof.
  unfold poolStart. set (n := Nat.min limit (List.length items)).
  assert (Hlook : forall k j, (Some <$> seq 0 n) !! k = Some (Some j) ->
                              j = k /\ (k < n)%nat).
  { intros k j H. rewrite list_lookup_fmap in H.
    destruct (seq 0 n !! k) as [x|] eqn:E; [|discriminate].
    apply lookup_seq in E as [-> Hk]. inversion H; subst. split; [reflexivity | lia]. }
  constructor; cbn [nextIndex results runners].
  - apply length_replicate.
  - rewrite length_fmap. apply length_seq.
  - intros k j H. apply Hlook in H as [-> Hk]. lia.
  - intros k k' j H H'. apply Hlook in H as [-> _]. apply Hlook in H' as [-> _].
    reflexivity.
  - intros j Hj Hn. left. exists j.
    rewrite list_lookup_fmap, (lookup_seq_lt 0 n j Hn). reflexivity.
  - intros Hl. destruct (Nat.eq_dec (List.length items) 0) as [E|E]; [right; lia|].
    left. exists 0%nat, 0%nat.
    rewrite list_lookup_fmap, (lookup_seq_lt 0 n 0); [reflexivity|].
    unfold n. lia.
Qed.

Lemma poolStep_inv (s s' : Pool) : PoolInv s -> step s s' -> PoolInv s'.
Proof.
  intros [Hres Hrun Hheld Hdist Hset Hlive] [k Hk].
  unfold settle in Hk.
  destruct (runners s !! k) as [[idx|]|] eqn:Ek; try discriminate.
  inversion Hk; subst s'; clear Hk.
  destruct (Hheld _ _ Ek) as [Hidx Hlt].
  assert (Hklen : (k < List.length (runners s))%nat) by (eapply lookup_lt_Some; eauto).
  set (new := if (nextIndex s <? List.length items)%nat
              then Some (nextIndex s) else None).
  assert (Hnew : forall k' j, <[k := new]> (runners s) !! k' = Some (Some j) ->
            (k' = k /\ j = nextIndex s /\ (nextIndex s < List.length items)%nat) \/
            (k' <> k /\ runners s !! k' = Some (Some j))).
  { intros k' j H. destruct (decide (k' = k)) as [->|Hne].
    - rewrite list_lookup_insert_eq in H by exact Hklen. left.
      unfold new in H. destruct (Nat.ltb_spec (nextIndex s) (List.length items));
        inversion H; subst; auto.
    - rewrite list_lookup_insert_ne in H by auto. right. auto. }
  constructor; cbn [nextIndex results runners].
  - now rewrite length_insert.
  - now rewrite length_insert.
  - intros k' j H. apply Hnew in H as [(-> & -> & Hn)|[Hne H]]; [lia|].
    apply Hheld in H. lia.
  - intros k1 k2 j H1 H2.
    apply Hnew in H1 as [(-> & -> & Hn1)|[Hne1 H1]];
      apply Hnew in H2 as [(-> & E2 & Hn2)|[Hne2 H2]]; try reflexivity.
    + apply Hheld in H2. lia.
    + subst j. apply Hheld in H1. lia.
    + eapply Hdist; eauto.
  - intros j Hj Hn.
    destruct (decide (j = nextIndex s)) as [->|Hne].
    { left. exists k. rewrite list_lookup_insert_eq by exact Hklen.
      unfold new. destruct (Nat.ltb_spec (nextIndex s) (List.length items)); [reflexivity|lia]. }
    destruct (decide (j = idx)) as [->|Hji].
    { right. apply list_lookup_insert_eq. lia. }
    destruct (Hset j Hj ltac:(lia)) as [[k0 Hk0]|Hr].
    + left. exists k0. rewrite list_lookup_insert_ne; [exact Hk0|].
      intros ->. rewrite Ek in Hk0. inversion Hk0. congruence.
    + right. rewrite list_lookup_insert_ne by auto. exact Hr.
  - intros Hl. destruct (Nat.ltb_spec (nextIndex s) (List.length items)) as [Hn|Hn].
    + left. exists k, (nextIndex s). rewrite list_lookup_insert_eq by exact Hklen.
      unfold new. destruct (Nat.ltb_spec (nextIndex s) (List.length items)); [reflexivity|lia].
    + right. lia.
Qed.

Lemma pool_reachable_inv (s : Pool) : rtc step start s -> PoolInv s.
Proof.
  revert s. apply rtc_ind_r.
  - apply poolStart_inv.
  - intros y z _ Hyz IH. eapply poolStep_inv; eauto.
Qed.

Lemma inFlight_le (s : Pool (R := R)) : (inFlight s <= List.length (runners s))%nat.
Proof. unfold inFlight. apply List.filter_length_le. Qed.
End MapLimitFacts.

(** X13: whatever the order in which the worker calls settle, never more than
    [limit] of them are in flight, no two runners await the same index, and
    every awaited index is an index of [items]. *)
Theorem mapLimit_in_flight {A R : Type} (worker : A -> nat -> Outcome R)
    (items : list A) (limit : nat) (s : Pool) :
  rtc (poolStep worker items) (poolStart items limit) s ->
  (inFlight s <= limit)%nat /\
  (forall k k' j, runners s !! k = Some (Some j) ->
                  runners s !! k' = Some (Some j) -> k = k') /\
  (forall k j, runners s !! k = Some (Some j) -> (j < List.length items)%nat).
Proof.
  intros H. apply (pool_reachable_inv worker) in H as [_ Hrun Hheld Hdist _ _].
  split; [|split].
  - pose proof (inFlight_le s). lia.
  - exact Hdist.
  - intros k j Hk. now apply Hheld in Hk.
Qed.

(** X14: with a limit of at least one, when all runners have stopped the
    result array has one slot for each item, in the order of the items: the
    value of the worker call for that item, or undefined when the call was
    rejected; the order in which the calls settled does not matter. *)
Theorem mapLimit_results {A R : Type} (worker : A -> nat -> Outcome R)
    (items : list A) (limit : nat) (s : Pool) :
  (1 <= limit)%nat ->
  rtc (poolStep worker items) (poolStart items limit) s ->
  poolDone s ->
  results s = settled worker items <$> seq 0 (List.length items).
Proof.
  intros Hl H Hdone.
  apply (pool_reachable_inv worker) in H as [Hres _ _ _ Hset Hlive].
  assert (Hnone : forall k j, runners s !! k = Some (Some j) -> False).
  { intros k j Hk. unfold poolDone in Hdone. rewrite Forall_forall in Hdone.
    assert (Hin : In (Some j) (runners s)).
    { apply list_elem_of_In. eapply list_elem_of_lookup_2; eauto. }
    apply Hdone in Hin. discriminate. }
  assert (Hall : (List.length items <= nextIndex s)%nat).
  { destruct (Hlive Hl) as [(k & j & Hk)|Hn]; [exfalso; eauto | exact Hn]. }
  apply list_eq. intros j.
  destruct (Nat.lt_ge_cases j (List.length items)) as [Hj|Hj].
  - rewrite list_lookup_fmap, (lookup_seq_lt 0 _ j Hj). cbn.
    destruct (Hset j Hj ltac:(lia)) as [[k Hk]|Hr]; [exfalso; eauto | exact Hr].
  - rewrite lookup_ge_None_2 by lia.
    rewrite lookup_ge_None_2; [reflexivity|].
    rewrite length_fmap, length_seq. lia.
Qed.

Lemma settleAll_nsteps {A R : Type} (worker : A -> nat -> Outcome R)
    (items : list A) (ks : list nat) (s s' : Pool) :
  settleAll worker items ks s = Some s' ->
  nsteps (poolStep worker items) (List.length ks) s s'.
Proof.
  revert s. induction ks as [|k ks IH]; intros s H; cbn [settleAll] in H.
  - inversion H; subst. constructor.
  - destruct (settle worker items k s) as [s1|] eqn:E; [|discriminate].
    eapply nsteps_l; [exists k; exact E | now apply IH].
Qed.

Lemma threeDone_reached :
  settleAll flakyWorker threeItems [1; 0; 1]%nat (poolStart threeItems 2) = Some threeDone.
Proof. reflexivity. Qed.

(** The pool of three pages at its end. *)
Lemma mapLimit_in_flight_witness :
  rtc (poolStep flakyWorker threeItems) (poolStart threeItems 2) threeDone /\
  (inFlight threeDone <= 2)%nat /\
  (forall k k' j, runners threeDone !! k = Some (Some j) ->
                  runners threeDone !! k' = Some (Some j) -> k = k') /\
  (forall k j, runners threeDone !! k = Some (Some j) ->
               (j < List.length threeItems)%nat).
Proof.
  assert (H : rtc (poolStep flakyWorker threeItems) (poolStart threeItems 2) threeDone).
  { eapply rtc_nsteps_2, settleAll_nsteps, threeDone_reached. }
  split; [exact H|].
  apply (mapLimit_in_flight flakyWorker threeItems 2 threeDone H).
Defined.

(** The results of the pool of three pages. *)
Lemma mapLimit_results_witness :
  (1 <= 2)%nat /\
  rtc (poolStep flakyWorker threeItems) (poolStart threeItems 2) threeDone /\
  poolDone threeDone /\
  results threeDone
  = settled flakyWorker threeItems <$> seq 0 (List.length threeItems).
Proof.
  assert (H : rtc (poolStep flakyWorker threeItems) (poolStart threeItems 2) threeDone).
  { eapply rtc_nsteps_2, settleAll_nsteps, threeDone_reached. }
  assert (D : poolDone threeDone) by (repeat constructor).
  split; [lia|]. split; [exact H|]. split; [exact D|].
  apply (mapLimit_results flakyWorker threeItems 2 threeDone); [lia | exact H | exact D].
Defined.

Section MapLimitCount.
Context {A R : Type}.
Variable worker : A -> nat -> Outcome R.
Variable items : list A.
Variable limit : nat.

Lemma filter_length_insert (l : list (option nat)) (k : nat) (x y : option nat) :
  l !! k = Some x ->
  (List.length (List.filter isHolding (<[k := y]> l)) + (if isHolding x then 1 else 0)
   = List.length (List.filter isHolding l) + (if isHolding y then 1 else 0))%nat.
Proof.
  revert k. induction l as [|a l IH]; intros k H; [discriminate|].
  destruct k as [|k].
  - cbn in H. inversion H; subst. cbn.
    destruct (isHolding x), (isHolding y); cbn; lia.
  - cbn in H. cbn.
    specialize (IH k H). destruct (isHolding a); cbn; [f_equal|]; exact IH.
Qed.

Lemma pool_count (j : nat) (s : Pool (R := R)) :
  nsteps (poolStep worker items) j (poolStart items limit) s ->
  nextIndex s = (Nat.min limit (List.length items) + j)%nat /\
  (inFlight s + j = Nat.min (Nat.min limit (List.length items) + j) (List.length items))%nat.
Proof.
  revert s. induction j as [|j IH]; intros s H.
  - inversion H; subst. unfold inFlight, poolStart. cbn [nextIndex runners].
    split; [lia|].
    assert (E : List.filter isHolding
                  (Some <$> seq 0 (Nat.min limit (List.length items)))
                = Some <$> seq 0 (Nat.min limit (List.length items))).
    { generalize (seq 0 (Nat.min limit (List.length items))).
      intros l. induction l as [|a l IHl]; [reflexivity|].
      cbn. now rewrite IHl. }
    rewrite E, length_fmap, length_seq. lia.
  - apply nsteps_inv_r in H as [s0 [H0 [k Hk]]].
    destruct (IH _ H0) as [Hn Hc]. unfold settle in Hk.
    destruct (runners s0 !! k) as [[idx|]|] eqn:Ek; try discriminate.
    inversion Hk; subst s; clear Hk. cbn [nextIndex]. split; [lia|].
    unfold inFlight in *. cbn [runners].
    pose proof (filter_length_insert (runners s0) k (Some idx)
                  (if (nextIndex s0 <? List.length items)%nat
                   then Some (nextIndex s0) else None) Ek) as Hf.
    cbn [isHolding] in Hf.
    destruct (Nat.ltb_spec (nextIndex s0) (List.length items));
      cbn [isHolding] in Hf; lia.
Qed.

Lemma inFlight_zero (s : Pool (R := R)) : inFlight s = 0%nat <-> poolDone s.
Proof.
  unfold inFlight, poolDone. induction (runners s) as [|a l IH]; cbn.
  - split; [constructor | reflexivity].
  - destruct a as [x|]; cbn.
    + split; [discriminate|]. intros H. inversion H; discriminate.
    + rewrite IH. split; [now constructor | now inversion 1].
Qed.

Lemma not_done_holding (s : Pool (R := R)) :
  ~ poolDone s -> exists k idx, runners s !! k = Some (Some idx).
Proof.
  unfold poolDone. induction (runners s) as [|a l IH]; intros H.
  - exfalso. apply H. constructor.
  - destruct a as [idx|]; [exists 0%nat, idx; reflexivity|].
    destruct IH as [k [idx Hk]]; [intros Hl; apply H; now constructor|].
    exists (S k), idx. exact Hk.
Qed.
End MapLimitCount.

(** X15: the pool comes to its end: with a limit of at least one, after [j]
    settled calls [j] is at most the number of items, the runners have all
    stopped exactly when [j] is that number, and until then a call is
    awaited whose settling is the next step. *)
Theorem mapLimit_terminates {A R : Type} (worker : A -> nat -> Outcome R)
    (items : list A) (limit j : nat) (s : Pool) :
  (1 <= limit)%nat ->
  nsteps (poolStep worker items) j (poolStart items limit) s ->
  (j <= List.length items)%nat /\
  (poolDone s <-> j = List.length items) /\
  (~ poolDone s -> exists s', poolStep worker items s s').
Proof.
  intros Hl H. destruct (pool_count worker items limit j s H) as [Hn Hc].
  split; [lia|]. split.
  - rewrite <- inFlight_zero. lia.
  - intros Hnd. destruct (not_done_holding s Hnd) as [k [idx Hk]].
    unfold poolStep, settle. exists (mkPool (S (nextIndex s))
      (<[idx := settled worker items idx]> (results s))
      (<[k := if (nextIndex s <? List.length items)%nat
              then Some (nextIndex s) else None]> (runners s))).
    exists k. now rewrite Hk.
Qed.

(** The pool of three pages after its three calls. *)
Lemma mapLimit_terminates_witness :
  (1 <= 2)%nat /\
  nsteps (poolStep flakyWorker threeItems) 3 (poolStart threeItems 2) threeDone /\
  (3 <= List.length threeItems)%nat /\
  (poolDone threeDone <-> 3%nat = List.length threeItems) /\
  (~ poolDone threeDone -> exists s', poolStep flakyWorker threeItems threeDone s').
Proof.
  assert (H : nsteps (poolStep flakyWorker threeItems) 3 (poolStart threeItems 2) threeDone).
  { apply (settleAll_nsteps flakyWorker threeItems [1; 0; 1]%nat), threeDone_reached. }
  split; [lia|]. split; [exact H|].
  apply (mapLimit_terminates flakyWorker threeItems 2 3 threeDone); [lia | exact H].
Defined.

(** ** Page bodies *)

Lemma rev_flat_map {A B : Type} (f : A -> list B) (l : list A) :
  rev (flat_map f l) = flat_map (fun x => rev (f x)) (rev l).
Proof.
  induction l as [|a l IH]; [reflexivity|].
  cbn [flat_map rev]. rewrite rev_app_distr, IH, flat_map_app. cbn [flat_map].
  now rewrite app_nil_r.
Qed.

Lemma list_sum_rev (l : list nat) : list_sum (rev l) = list_sum l.
Proof.
  induction l as [|a l IH]; [reflexivity|].
  cbn [rev]. rewrite list_sum_app, IH.
  change (list_sum [a]) with (a + 0)%nat.
  change (list_sum (a :: l)) with (a + list_sum l)%nat. lia.
Qed.

Lemma list_sum_cons (a : nat) (l : list nat) : list_sum (a :: l) = (a + list_sum l)%nat.
Proof. reflexivity. Qed.

Lemma nodeCount_pos (v : JsValue) : (1 <= nodeCount v)%nat.
Proof. destruct v; cbn [nodeCount]; lia. Qed.

Lemma flattenLoop_spec (fuel : nat) (stack : list JsValue) (out : list jsstring) :
  (list_sum (List.map nodeCount stack) <= fuel)%nat ->
  flattenLoop fuel stack out = out ++ flat_map (fun v => rev (leaves v)) stack.
Proof.
  revert stack out. induction fuel as [|f IH]; intros stack out Hf.
  - destruct stack as [|v rest]; [now rewrite app_nil_r|].
    cbn [List.map] in Hf. rewrite list_sum_cons in Hf.
    pose proof (nodeCount_pos v). lia.
  - destruct stack as [|v rest]; [cbn; now rewrite app_nil_r|].
    cbn [List.map] in Hf. rewrite list_sum_cons in Hf.
    cbn [flattenLoop flat_map].
    destruct v as [s|cs|cs|]; cbn [nodeCount leaves] in *.
    + rewrite IH by lia. cbn [rev app]. now rewrite <- app_assoc.
    + rewrite IH.
      * rewrite flat_map_app, <- rev_flat_map. now rewrite app_assoc.
      * rewrite map_app, list_sum_app, map_rev, list_sum_rev. lia.
    + rewrite IH.
      * rewrite flat_map_app, <- rev_flat_map. now rewrite app_assoc.
      * rewrite map_app, list_sum_app, map_rev, list_sum_rev. lia.
    + rewrite IH by lia. reflexivity.
Qed.

(** X16: the flattening of a JSON body collects all its string leaves, and
    in the reverse of their reading order: the loop pops the last pushed
    element first. *)
Theorem flattenJson_reversed_leaves (root : JsValue) :
  flattenJson root = rev (leaves root).
Proof.
  unfold flattenJson. rewrite flattenLoop_spec.
  - cbn [flat_map app]. now rewrite app_nil_r.
  - cbn [List.map]. rewrite list_sum_cons. cbn. lia.
Qed.

Example flattenJson_demo :
  flattenJson
    (JObject [ JString (str "doc");
               JArray [ JString (str "a"); JOther; JArray [JString (str "b")] ];
               JString (str "c") ])
  = [str "c"; str "b"; str "a"; str "doc"].
Proof. reflexivity. Qed.

Lemma nonBlank_Some (t u : jsstring) : nonBlank t = Some u -> u = t /\ t <> [].
Proof.
  unfold nonBlank. destruct t; [discriminate|]. intros H. inversion H. split; congruence.
Qed.

Lemma textBody_Some (o : Outcome (option jsstring)) (t : jsstring) :
  textBody o = Some t -> t <> [] /\ isTrimmed t = true.
Proof.
  unfold textBody. destruct o as [[c|]|]; try discriminate.
  destruct (truthy c); [|discriminate].
  intros H. apply nonBlank_Some in H as [-> Hn].
  split; [exact Hn | apply trim_isTrimmed].
Qed.

Lemma jsonBody_Some (jsonParse : jsstring -> option JsValue)
    (o : Outcome (option JsonContent)) (t : jsstring) :
  jsonBody jsonParse o = Some t -> t <> [] /\ isTrimmed t = true.
Proof.
  unfold jsonBody. destruct o as [[[s|v]|]|]; try discriminate.
  - destruct (truthy s); [|discriminate].
    destruct (jsonParse s); [|discriminate].
    intros H. apply nonBlank_Some in H as [-> Hn].
    split; [exact Hn | apply trim_isTrimmed].
  - intros H. apply nonBlank_Some in H as [-> Hn].
    split; [exact Hn | apply trim_isTrimmed].
Qed.

Lemma firstBody_spec (cs : list (option jsstring)) :
  (forall t, In (Some t) cs -> t <> [] /\ isTrimmed t = true) ->
  isTrimmed (firstBody cs) = true /\
  (firstBody cs = [] <-> Forall (fun c => c = None) cs).
Proof.
  induction cs as [|c cs IH]; intros H.
  - split; [reflexivity|]. split; [constructor | reflexivity].
  - destruct c as [t|]; cbn [firstBody].
    + destruct (H t (or_introl eq_refl)) as [Hn Ht]. split; [exact Ht|].
      split; [contradiction|]. intros F. inversion F; discriminate.
    + destruct IH as [I1 I2]; [intros t Ht; apply H; now right|].
      split; [exact I1|]. rewrite I2. split; [now constructor | now inversion 1].
Qed.

Lemma flattenJson_leaves (root : JsValue) : flattenJson root = rev (leaves root).
Proof.
  unfold flattenJson. rewrite flattenLoop_spec.
  - cbn [flat_map app]. now rewrite app_nil_r.
  - cbn [List.map]. rewrite list_sum_cons. cbn. lia.
Qed.

Lemma nonBlank_None (t : jsstring) : nonBlank t = None <-> t = [].
Proof. unfold nonBlank. destruct t; cbn; split; congruence. Qed.

Lemma textBody_None (o : Outcome (option jsstring)) :
  textBody o = None <-> (forall c, o = Return (Some c) -> trim c = []).
Proof.
  unfold textBody. destruct o as [[c|]|e].
  - destruct c as [|u c'] eqn:Ec.
    + cbn [truthy]. split; [|reflexivity]. intros _ c0 E. injection E as <-. reflexivity.
    + cbn [truthy]. rewrite nonBlank_None. split.
      * intros H c0 E. injection E as <-. exact H.
      * intros H. apply H. reflexivity.
  - split; [|reflexivity]. intros _ c E. discriminate.
  - split; [|reflexivity]. intros _ c E. discriminate.
Qed.

Lemma jsonBody_None (jsonParse : jsstring -> option JsValue)
    (o : Outcome (option JsonContent)) :
  jsonBody jsonParse o = None <->
  (forall v, o = Return (Some (Parsed v)) -> trim (joinLF (rev (leaves v))) = []) /\
  (forall s root, o = Return (Some (Unparsed s)) -> s <> [] ->
     jsonParse s = Some root -> trim (joinLF (rev (leaves root))) = []).
Proof.
  unfold jsonBody. destruct o as [[[s|v]|]|e].
  - destruct s as [|u s'] eqn:Es; cbn [truthy].
    + split; [|reflexivity]. intros _. split; [intros v E; discriminate|].
      intros s0 root E Hn. injection E as <-. contradiction.
    + destruct (jsonParse (u :: s')) as [root|] eqn:Ep.
      * rewrite nonBlank_None, flattenJson_leaves. split.
        -- intros H. split; [intros v E; discriminate|].
           intros s0 root0 E _ Ep0. injection E as <-. rewrite Ep in Ep0.
           injection Ep0 as <-. exact H.
        -- intros [_ H]. apply (H (u :: s') root); [reflexivity | discriminate | exact Ep].
      * split; [|reflexivity]. intros _. split; [intros v E; discriminate|].
        intros s0 root E _ Ep0. injection E as <-. rewrite Ep in Ep0. discriminate.
  - rewrite nonBlank_None, flattenJson_leaves. split.
    + intros H. split; [intros v0 E; injection E as <-; exact H|].
      intros s root E. discriminate.
    + intros [H _]. apply H. reflexivity.
  - split; [|reflexivity]. intros _. split; [intros v E | intros s root E]; discriminate.
  - split; [|reflexivity]. intros _. split; [intros v E | intros s root E]; discriminate.
Qed.

(** X17: the body that [fetchPageBody] returns is never blank: it is either
    the empty string or a text without white space at its ends.  It is the
    empty string exactly when no format gave a text that is not blank: the
    markdown, the plain and the HTML request were rejected, had no content
    or content that trims to nothing, and the JSON request was rejected, had
    no content, content that does not parse, or string leaves that, taken
    last first and joined by line feeds, trim to nothing.  A markdown answer
    whose content does not trim to nothing is returned trimmed, whatever
    the other formats hold. *)
Theorem fetchPageBody_result (jsonParse : jsstring -> option JsValue)
    (r : PageResponses) :
  isTrimmed (fetchPageBody jsonParse r) = true /\
  (fetchPageBody jsonParse r = [] <->
   (forall c, asMarkdown r = Return (Some c) -> trim c = []) /\
   (forall c, asPlain r = Return (Some c) -> trim c = []) /\
   (forall v, asJson r = Return (Some (Parsed v)) ->
      trim (joinLF (rev (leaves v))) = []) /\
   (forall s root, asJson r = Return (Some (Unparsed s)) -> s <> [] ->
      jsonParse s = Some root -> trim (joinLF (rev (leaves root))) = []) /\
   (forall c, asHtml r = Return (Some c) -> trim c = [])) /\
  (forall c, asMarkdown r = Return (Some c) -> trim c <> [] ->
     fetchPageBody jsonParse r = trim c).
Proof.
  unfold fetchPageBody.
  destruct (firstBody_spec (bodyCandidates jsonParse r)) as [H1 H2].
  { unfold bodyCandidates. intros t [H|[H|[H|[H|[]]]]].
    - now apply textBody_Some in H.
    - now apply textBody_Some in H.
    - now apply jsonBody_Some in H.
    - now apply textBody_Some in H. }
  split; [exact H1|]. split.
  - pose proof (textBody_None (asMarkdown r)) as Tm.
    pose proof (textBody_None (asPlain r)) as Tp.
    pose proof (textBody_None (asHtml r)) as Th.
    pose proof (jsonBody_None jsonParse (asJson r)) as Tj.
    split.
    + intros F. apply H2 in F. unfold bodyCandidates in F.
      inversion F as [|? ? E1 F1]; subst. inversion F1 as [|? ? E2 F2]; subst.
      inversion F2 as [|? ? E3 F3]; subst. inversion F3 as [|? ? E4 _]; subst.
      destruct (proj1 Tj E3) as [J1 J2].
      split; [exact (proj1 Tm E1)|]. split; [exact (proj1 Tp E2)|].
      split; [exact J1|]. split; [exact J2 | exact (proj1 Th E4)].
    + intros (E1 & E2 & E3 & E3' & E4). apply H2. unfold bodyCandidates.
      rewrite (proj2 Tm E1), (proj2 Tp E2), (proj2 Tj (conj E3 E3')), (proj2 Th E4).
      repeat constructor.
  - intros c Hc Hn. unfold bodyCandidates. rewrite Hc. unfold textBody.
    destruct c as [|u c']; [contradiction Hn; reflexivity|].
    cbn [truthy]. unfold nonBlank.
    destruct (trim (u :: c')) as [|u' t']; [contradiction|]. reflexivity.
Qed.

Example fetchPageBody_demo (jsonParse : jsstring -> option JsValue) :
  fetchPageBody jsonParse
    {| asMarkdown := Return (Some (str "   "));
       asPlain := Throw (httpError 404);
       asJson := Return (Some (Parsed (JArray [JString (str "[/system]");
                                               JString (str "[system]")])));
       asHtml := Return (Some (str "<p>not reached</p>")) |}
  = str "[system]" ++ LF :: str "[/system]".
Proof. reflexivity. Qed.

(** ** The document listing *)

Lemma listAllDocsFrom_spec (request : option jsstring -> Outcome DocsData)
    (keep : option (jsstring -> bool)) (c : option jsstring)
    (pages : list DocsData) (r : option JsError) :
  Listing request c pages r ->
  forall fuel docs, (List.length pages < fuel)%nat ->
    listAllDocsFrom request keep fuel c docs =
      Some (match r with
            | None => Return (docs ++ flat_map (keptDocs keep) pages)
            | Some e => Throw e
            end).
Proof.
  induction 1 as [c e He|c data Hd Hn|c data c' rest r Hd Hn _ IH];
    intros fuel docs Hf; (destruct fuel as [|f]; [cbn in Hf; lia|]);
    cbn [listAllDocsFrom].
  - now rewrite He.
  - rewrite Hd, Hn. cbn [flat_map]. now rewrite app_nil_r.
  - rewrite Hd, Hn. rewrite IH by (cbn in Hf; lia).
    destruct r; [reflexivity|]. cbn [flat_map]. now rewrite app_assoc.
Qed.

Lemma filter_all {A : Type} (l : list A) : List.filter (fun _ => true) l = l.
Proof. induction l as [|x l IH]; [reflexivity|]. cbn. now rewrite IH. Qed.

Lemma keptDocs_filter (keep : option (jsstring -> bool)) (data : DocsData) :
  keptDocs keep data =
  List.filter
    (fun d => match keep, meta_name d with
              | None, _ => true
              | Some test, Some (c :: n) => test (c :: n)
              | Some _, _ => false
              end)
    (match data_docs data with Some batch => batch | None => [] end).
Proof.
  unfold keptDocs. destruct keep as [test|].
  - apply filter_ext. intros d. destruct (meta_name d) as [[|c n]|]; reflexivity.
  - symmetry. apply filter_all.
Qed.

(** X18: the listing follows the cursors: when the server's answers end with
    one that names no further cursor, [listAllDocs] returns, in order, the
    documents of all answers (an answer without a list of documents gives
    none); when a name filter is configured, only the documents that have a
    name that is not empty and passes the filter.  When a request is
    rejected, [listAllDocs] throws that error and returns none of the
    documents read before. *)
Theorem listAllDocs_pages (request : option jsstring -> Outcome DocsData)
    (keep : option (jsstring -> bool)) (pages : list DocsData)
    (r : option JsError) (fuel : nat) :
  Listing request None pages r -> (List.length pages < fuel)%nat ->
  listAllDocs request keep fuel =
    Some (match r with
          | None =>
              Return
                (flat_map
                   (fun data =>
                      List.filter
                        (fun d => match keep, meta_name d with
                                  | None, _ => true
                                  | Some test, Some (c :: n) => test (c :: n)
                                  | Some _, _ => false
                                  end)
                        (match data_docs data with
                         | Some batch => batch
                         | None => []
                         end))
                   pages)
          | Some e => Throw e
          end).
Proof.
  intros H Hf. unfold listAllDocs.
  rewrite (listAllDocsFrom_spec request keep None pages r H fuel [] Hf).
  destruct r; [reflexivity|]. cbn [app]. do 2 f_equal.
  apply flat_map_ext. intros data. apply keptDocs_filter.
Qed.

(** The listing of the server with two pages, with a name filter: the
    document "Meeting notes" of the first answer is left out. *)
Lemma listAllDocs_pages_witness :
  Listing twoPageServer None [firstAnswer; secondAnswer] None /\
  (List.length [firstAnswer; secondAnswer] < 3)%nat /\
  listAllDocs twoPageServer (Some startsWithSorI) 3 =
    Some (Return [statusDoc; incidentsDoc]).
Proof.
  assert (H : Listing twoPageServer None [firstAnswer; secondAnswer] None).
  { eapply listing_more; [reflexivity | reflexivity |].
    apply listing_last; reflexivity. }
  split; [exact H|]. split; [cbn; lia|].
  apply (listAllDocs_pages twoPageServer (Some startsWithSorI)
           [firstAnswer; secondAnswer] None 3 H). cbn; lia.
Defined.

Example listAllDocs_demo :
  listAllDocs twoPageServer (Some startsWithSorI) 3
  = Some (Return [statusDoc; incidentsDoc]) /\
  listAllDocs twoPageServer None 2
  = Some (Return [statusDoc; notesDoc; incidentsDoc]).
Proof. split; reflexivity. Qed.

(** X19: the listing has no guard against a server that names a further
    cursor in every answer: however many requests are allowed, it has not
    returned. *)
Theorem listAllDocs_endless (request : option jsstring -> Outcome DocsData)
    (keep : option (jsstring -> bool)) (fuel : nat) :
  (forall c, exists data c', request c = Return data /\ nextCursor data = Some c') ->
  listAllDocs request keep fuel = None.
Proof.
  intros H. unfold listAllDocs. generalize (@nil DocMeta). generalize (@None jsstring).
  induction fuel as [|f IH]; intros c docs; [reflexivity|].
  cbn [listAllDocsFrom]. destruct (H c) as (data & c' & Hd & Hn).
  rewrite Hd, Hn. apply IH.
Qed.

(** The server that always names the cursor "again". *)
Lemma listAllDocs_endless_witness :
  (forall c, exists data c', endlessServer c = Return data /\ nextCursor data = Some c') /\
  listAllDocs endlessServer None 1000 = None.
Proof.
  assert (H : forall c, exists data c',
             endlessServer c = Return data /\ nextCursor data = Some c').
  { intros c. eexists. exists (str "again"). split; reflexivity. }
  split; [exact H|].
  apply (listAllDocs_endless endlessServer None 1000 H).
Defined.

(** ** More of the revision with the legacy flag *)

Lemma takeWhile_length (p : N -> bool) (s : jsstring) :
  (List.length (takeWhile p s) <= List.length s)%nat.
Proof.
  induction s as [|c s IH]; simpl; [lia|]. destruct (p c); simpl; lia.
Qed.

Lemma unsafeRunAt_keyChar (c : N) (t : jsstring) :
  isKeyChar c = true -> unsafeRunAt (c :: t) = None.
Proof. intros H. unfold unsafeRunAt. cbn [takeWhile]. now rewrite H. Qed.

Lemma unsafeRunAt_other (c : N) (t : jsstring) :
  isKeyChar c = false -> exists n, unsafeRunAt (c :: t) = Some (S n, [95]).
Proof.
  intros H. unfold unsafeRunAt. cbn [takeWhile]. rewrite H. cbn [negb].
  eexists. reflexivity.
Qed.

Lemma sanitize_scan_safe (fuel : nat) (s : jsstring) :
  (List.length s <= fuel)%nat ->
  forallb isKeyChar (replaceFrom unsafeRunAt fuel s) = true.
Proof.
  revert s. induction fuel as [|f IH]; intros s Hlen.
  - destruct s; [reflexivity | simpl in Hlen; lia].
  - destruct s as [|c t]; [reflexivity|].
    cbn [replaceFrom]. cbn [List.length] in Hlen.
    destruct (isKeyChar c) eqn:Ec.
    + rewrite (unsafeRunAt_keyChar c t Ec). cbn [forallb]. rewrite Ec.
      apply IH. lia.
    + destruct (unsafeRunAt_other c t Ec) as [n ->].
      cbn [app forallb Nat.pred]. apply IH. rewrite length_skipn. lia.
Qed.

Lemma occurs_unsafe_none (s : jsstring) :
  forallb isKeyChar s = true -> occurs unsafeRunAt s = false.
Proof.
  induction s as [|c t IH]; intros H; [reflexivity|].
  cbn [forallb] in H. apply andb_prop in H as [Hc Ht].
  cbn [occurs]. rewrite (unsafeRunAt_keyChar c t Hc). now apply IH.
Qed.

Lemma forallb_firstn (q : N -> bool) (n : nat) (s : jsstring) :
  forallb q s = true -> forallb q (firstn n s) = true.
Proof.
  revert s. induction n as [|n IH]; intros s H; [reflexivity|].
  destruct s as [|c s]; [reflexivity|].
  cbn [forallb firstn] in *. apply andb_prop in H as [Hc Hs].
  rewrite Hc. now apply IH.
Qed.

(** X20: a sanitized file name holds letters, digits, underscores, dots and
    hyphens only, is at most 120 code units long, and is left as it is when
    sanitized again. *)
Theorem sanitizeFile_safe (s : jsstring) :
  forallb isKeyChar (sanitizeFile s) = true /\
  (List.length (sanitizeFile s) <= 120)%nat /\
  sanitizeFile (sanitizeFile s) = sanitizeFile s.
Proof.
  assert (H : forallb isKeyChar (sanitizeFile s) = true).
  { unfold sanitizeFile, replaceAll. apply forallb_firstn, sanitize_scan_safe. lia. }
  assert (L : (List.length (sanitizeFile s) <= 120)%nat).
  { unfold sanitizeFile. rewrite length_firstn. lia. }
  split; [exact H|]. split; [exact L|].
  unfold sanitizeFile at 1.
  rewrite (replaceAll_noop _ _ (occurs_unsafe_none _ H)).
  apply firstn_all2. exact L.
Qed.

Example sanitizeFile_demo :
  sanitizeFile (str "8cdu22c-13153/../My page: v2.txt") = str "8cdu22c-13153_.._My_page_v2.txt".
Proof. vm_compute. reflexivity. Qed.

Section DepthBound.
Import SolvedRevision.

Lemma collect_pruned (MAX_DEPTH cutoffMs : Z) (levels : nat) :
  forall (d : DocTree) (depth : Z),
    (MAX_DEPTH - depth <= Z.of_nat levels)%Z ->
    collectSystemFromDoc MAX_DEPTH cutoffMs (pruneTree levels d) depth
    = collectSystemFromDoc MAX_DEPTH cutoffMs d depth.
Proof.
  induction levels as [|k IH]; intros [id docName pages children] depth Hd;
    cbn [pruneTree collectSystemFromDoc].
  - destruct (MAX_DEPTH <? depth)%Z; [reflexivity|].
    destruct (recentPages cutoffMs pages); [reflexivity|].
    destruct (Z.ltb_spec depth MAX_DEPTH); [lia | reflexivity].
  - destruct (MAX_DEPTH <? depth)%Z; [reflexivity|].
    destruct (recentPages cutoffMs pages); [reflexivity|].
    destruct (Z.ltb_spec depth MAX_DEPTH); [|reflexivity].
    f_equal. rewrite flat_map_concat_map, map_map, <- flat_map_concat_map.
    apply flat_map_ext. intros child. apply IH. lia.
Qed.
End DepthBound.

(** X21: child documents below the configured depth are not read: what is
    collected from a document at depth 0 is what is collected from the
    document cut [MAX_DEPTH] levels below it; with depth 0 no child document
    counts, and with a negative depth nothing is collected. *)
Theorem collect_depth_bound (MAX_DEPTH cutoffMs : Z) (d : SolvedRevision.DocTree) :
  SolvedRevision.collectSystemFromDoc MAX_DEPTH cutoffMs d 0
  = SolvedRevision.collectSystemFromDoc MAX_DEPTH cutoffMs
      (pruneTree (Z.to_nat MAX_DEPTH) d) 0 /\
  ((MAX_DEPTH < 0)%Z ->
   SolvedRevision.collectSystemFromDoc MAX_DEPTH cutoffMs d 0 = []).
Proof.
  split.
  - symmetry. apply collect_pruned. lia.
  - intros H. destruct d as [id docName pages children].
    cbn [SolvedRevision.collectSystemFromDoc].
    destruct (Z.ltb_spec MAX_DEPTH 0); [reflexivity | lia].
Qed.

Example collect_depth_demo :
  List.map (fun f => SolvedRevision.name (SolvedRevision.f_entry f))
    (SolvedRevision.collectSystemFromDoc 0 0 nestedTree 0) = [str "X"] /\
  List.map (fun f => SolvedRevision.name (SolvedRevision.f_entry f))
    (SolvedRevision.collectSystemFromDoc 1 0 nestedTree 0) = [str "X"; str "Y"] /\
  List.map (fun f => SolvedRevision.name (SolvedRevision.f_entry f))
    (SolvedRevision.collectSystemFromDoc 2 0 nestedTree 0) = [str "X"; str "Y"; str "X"] /\
  SolvedRevision.collectSystemFromDoc (-1) 0 nestedTree 0 = [].
Proof. vm_compute. repeat split. Qed.

(** X22: every entry that this revision extracts has a name that is not
    empty, one of the three statuses and the solved value "no". *)
Theorem solved_revision_entries (body : jsstring) :
  Forall (fun e =>
            SolvedRevision.name e <> [] /\
            (SolvedRevision.status e = str "ok" \/
             SolvedRevision.status e = str "warning" \/
             SolvedRevision.status e = str "error") /\
            SolvedRevision.solved e = str "no")
         (SolvedRevision.extractAllSystemEntries body).
Proof.
  apply Forall_forall. intros e He.
  unfold SolvedRevision.extractAllSystemEntries in He.
  apply dedupFrom_In in He. unfold SolvedRevision.parsedEntries in He.
  apply in_flat_map in He as [inner [_ He]].
  unfold SolvedRevision.blockEntries in He.
  destruct (negb (truthy (trim inner))); [contradiction|].
  destruct (negb (jseqb _ (str "no"))); [contradiction|].
  destruct He as [<-|[]].
  cbn [SolvedRevision.name SolvedRevision.status SolvedRevision.solved].
  split; [|split; [apply normalizeStatus_cases | reflexivity]].
  unfold orElse. destruct (orEmpty _) as [|c r]; simpl; discriminate.
Qed.

(** ** More of the revision with the display flag *)

Lemma display_revision_status_cases (s : option jsstring) :
  DisplayRevision.normalizeStatus s = str "ok" \/
  DisplayRevision.normalizeStatus s = str "warning" \/
  DisplayRevision.normalizeStatus s = str "error".
Proof.
  unfold DisplayRevision.normalizeStatus.
  destruct (jseqb _ (str "warn")); [tauto|].
  destruct (jseqb _ (str "incident")); [tauto|].
  destruct (jseqb _ (str "degraded")); [tauto|].
  destruct (jseqb _ (str "success")); [tauto|].
  destruct (oneOf _ _) eqn:E; [|tauto].
  unfold oneOf in E. apply existsb_exists in E as [w [Hw E]].
  apply jseqb_true in E. rewrite E.
  destruct Hw as [<-|[<-|[<-|[]]]]; tauto.
Qed.

Lemma display_revision_domains_unique
    (urlHostname : jsstring -> option jsstring) (v : option jsstring) :
  NoDup (DisplayRevision.parseDomains urlHostname v) /\
  ~ In (str "@") (DisplayRevision.parseDomains urlHostname v).
Proof.
  unfold DisplayRevision.parseDomains. destruct v as [v|]; [|split; [constructor | tauto]].
  destruct (negb (truthy (trim v))); [split; [constructor | tauto]|].
  destruct (jseqb (trim v) (str "@")); [split; [constructor | tauto]|].
  destruct (existsb _ _) eqn:E; [split; [constructor | tauto]|].
  split; [apply uniqueFrom_NoDup|].
  intros H. apply uniqueFrom_In in H.
  assert (existsb (jseqb (str "@"))
            (List.filter truthy
               (List.map (DisplayRevision.normalizeHostToken urlHostname)
                  (splitOn 44 (trim v)))) = true) as Ht.
  { apply existsb_exists. exists (str "@"). split; [exact H | now apply jseqb_true]. }
  rewrite Ht in E. discriminate.
Qed.

(** X23: every entry that this revision extracts has a trimmed name that is
    not empty, one of the three statuses, the display value "yes", a trimmed
    message, and domains without duplicates, none of them empty or "@", and
    each free of path, query and fragment separators and of upper-case ASCII
    letters. *)
Theorem display_revision_entries
    (urlHostname : jsstring -> option jsstring) (body : jsstring) :
  Forall (fun e =>
            name e <> [] /\ isTrimmed (name e) = true /\
            (status e = str "ok" \/ status e = str "warning" \/
             status e = str "error") /\
            display e = str "yes" /\
            isTrimmed (message e) = true /\
            NoDup (domains e) /\ ~ In (str "@") (domains e) /\
            Forall (fun d => d <> [] /\ forallb isHostUnit d = true) (domains e))
         (DisplayRevision.extractAllSystemEntries urlHostname body).
Proof.
  apply Forall_forall. intros e He.
  pose proof (display_revision_message_trimmed urlHostname body e He) as Hm.
  unfold DisplayRevision.extractAllSystemEntries in He.
  apply in_flat_map in He as [inner [_ He]].
  unfold DisplayRevision.blockEntries in He.
  destruct (negb (truthy (trim inner))); [contradiction|].
  destruct (negb (jseqb _ (str "yes"))); [contradiction|].
  destruct (negb (truthy _)) eqn:En; [contradiction|].
  destruct He as [<-|[]]. cbn [name status display domains message] in *.
  split.
  { intros E. rewrite E in En. discriminate. }
  split; [apply trim_isTrimmed|].
  split; [apply display_revision_status_cases|].
  split; [reflexivity|]. split; [exact Hm|].
  destruct (display_revision_domains_unique urlHostname
              (fst (fold_left (DisplayRevision.parseLine) (splitLines (trim inner)) (∅, None))
                 !! str "domain")) as [Hn Ha].
  split; [exact Hn|]. split; [exact Ha|].
  apply Forall_forall. intros d Hd.
  apply display_revision_domains_normalized in Hd as [Hu Hne]. tauto.
Qed.

Lemma uniqueFrom_nil (l : list jsstring) : uniqueFrom ∅ l = [] -> l = [].
Proof.
  destruct l as [|y t]; [reflexivity|]. simpl.
  destruct (bool_decide (y ∈ (∅ : gset jsstring))) eqn:E; [|discriminate].
  apply bool_decide_eq_true in E. set_solver.
Qed.

Lemma filter_truthy_nil (l : list jsstring) :
  List.filter truthy l = [] <-> Forall (fun h => h = []) l.
Proof.
  induction l as [|[|c r] t IH]; simpl.
  - split; constructor.
  - rewrite IH. split; [now constructor | now inversion 1].
  - split; [discriminate | inversion 1; discriminate].
Qed.

(** X24: in this revision a domain value gives no domains, which makes the
    audience global, exactly when one of its comma-separated tokens
    normalizes to "@" or none of them normalizes to a host that is not
    empty. *)
Theorem display_revision_global_iff
    (urlHostname : jsstring -> option jsstring) (v : jsstring) :
  let hosts := List.map (DisplayRevision.normalizeHostToken urlHostname)
                 (splitOn 44 (trim v)) in
  DisplayRevision.parseDomains urlHostname (Some v) = [] <->
  In (str "@") hosts \/ Forall (fun h => h = []) hosts.
Proof.
  cbv zeta. unfold DisplayRevision.parseDomains.
  destruct (trim v) as [|c r] eqn:Ev.
  { cbn [truthy negb]. split; [|reflexivity]. intros _. right. vm_compute.
    repeat constructor. }
  cbn [truthy negb].
  destruct (jseqb (c :: r) (str "@")) eqn:Eat.
  { apply jseqb_true in Eat. rewrite Eat. split; [|reflexivity]. intros _. left.
    vm_compute. left. reflexivity. }
  set (hosts := List.map _ _).
  destruct (existsb (jseqb (str "@")) (List.filter truthy hosts)) eqn:Ex.
  - split; [|reflexivity]. intros _. left.
    apply existsb_exists in Ex as [x [Hx E]]. apply jseqb_true in E. subst x.
    apply filter_In in Hx. tauto.
  - split.
    + intros H. right. apply filter_truthy_nil, uniqueFrom_nil, H.
    + intros [H|H].
      * assert (existsb (jseqb (str "@")) (List.filter truthy hosts) = true) as Ht.
        { apply existsb_exists. exists (str "@").
          split; [apply filter_In; split; [exact H | reflexivity] | now apply jseqb_true]. }
        rewrite Ht in Ex. discriminate.
      * apply filter_truthy_nil in H. rewrite H. reflexivity.
Qed.

Example display_revision_global_demo (urlHostname : jsstring -> option jsstring) :
  DisplayRevision.parseDomains urlHostname (Some (str "example.com, @")) = [] /\
  DisplayRevision.parseDomains urlHostname (Some (str " , /path ,")) = [] /\
  DisplayRevision.parseDomains urlHostname (Some (str "WWW.Example.com/x, example.com"))
  = [str "example.com"].
Proof. vm_compute. repeat split. Qed.
